(** * SensorBoard Live: ingestion endpoint and traffic simulator

    A shallow embedding of
    - [supabase/functions/ingest/index.ts] (the [Deno.serve] handler), over a
      model of the three tables of the schema migration, and
    - the simulator context provider ([SimulatorProvider]: [generateValue],
      [sendReading], [startSimulator], [stopSimulator], the interval callback
      and the cleanup effect),
    followed by the properties of the specification that concern them. *)

From stdpp Require Import gmap strings list fin_maps.
From Stdlib Require Import QArith Qabs Qminmax Lqa.

Close Scope Q_scope.
Local Open Scope string_scope.
Local Open Scope list_scope.

(** ** Stateful code: a state monad

    Both programs thread a mutable world through their calls (the tables and
    the clock for the endpoint; the React state, the window's timers and the
    random source for the simulator). *)
Definition State (S A : Type) : Type := S -> A * S.

Definition ret {S A} (a : A) : State S A := fun w => (a, w).
Definition bind {S A B} (m : State S A) (k : A -> State S B) : State S B :=
  fun w => let (a, w') := m w in k a w'.
Definition gets {S A} (f : S -> A) : State S A := fun w => (f w, w).
Definition modify {S} (f : S -> S) : State S unit := fun w => (tt, f w).

Notation "x <- m ;; k" := (bind m (fun x => k))
  (at level 100, m at next level, right associativity).
Notation "m ;;; k" := (bind m (fun _ => k))
  (at level 100, right associativity).

(** ** The ingestion endpoint *)
Module Ingest.

(** *** Rows of the entity store

    Identifiers are uuids in the schema; they are opaque, so a natural number
    stands for each.  Timestamps are instants counted as natural numbers. *)

Record Device := {
  dev_id : nat;
  dev_user_id : nat;
  dev_name : string;
  dev_description : string;
  dev_api_key : string;
  dev_created_at : nat;
  dev_last_seen : nat
}.

Record Sensor := {
  sen_id : nat;
  sen_device_id : nat;
  sen_name : string;
  sen_unit : string;
  sen_type : string;
  sen_created_at : nat
}.

Record Reading := {
  rd_id : nat;
  rd_sensor_id : nat;
  rd_value : Q;
  rd_timestamp : nat
}.

(** The tables, with the two generators of the schema: [uuid_generate_v4]
    and the identity column of [readings]. *)
Record Store := {
  devices : list Device;
  sensors : list Sensor;
  readings : list Reading;
  next_uuid : nat;
  next_reading_id : nat
}.

(** Why a store call did not deliver a row. *)
Inductive StoreError :=
| Unavailable          (* network or store failure *)
| MultipleRows         (* maybeSingle()/single() over more than one row *)
| UniqueViolation      (* UNIQUE(device_id, name), UNIQUE api_key *)
| ForeignKeyViolation. (* REFERENCES devices(id) / sensors(id) *)

(** What supabase-js hands back, [{ data, error }]: an error with no data,
    or the data with no error.  After [single()] the data is a row; after
    [maybeSingle()] it is a row or [null]. *)
Definition Result (A : Type) : Type := StoreError + A.

Definition error {A} (r : Result A) : option StoreError :=
  match r with inl e => Some e | inr _ => None end.

(** [data] of a [maybeSingle()] result: [null] on error and on no row. *)
Definition data {A} (r : Result (option A)) : option A :=
  match r with inl _ => None | inr row => row end.

(** *** The environment of one request

    Every store call is an [await]: before the call is served, other requests
    may have written, and the call itself may fail.  A [Turn] says what
    happens at one call: the time that passes until it is served (the clock
    does not run backwards), the sensor rows (device id, name) that
    concurrent first-sightings insert just before it, and whether the call
    fails. *)
Record Turn := { rivals : list (nat * string); fails : bool; elapsed : nat }.

Definition calm : Turn := {| rivals := []; fails := false; elapsed := 0 |}.

(** The calls of the handler, as they are issued, with what came back. *)
Inductive Event :=
| SelectDevice (api_key : string) (err : option StoreError)
| SelectSensor (device_id : nat) (name : string) (err : option StoreError)
| InsertSensor (device_id : nat) (name : string) (err : option StoreError)
| InsertReading (sensor_id : nat) (value : Q) (err : option StoreError)
| ConsoleError (message : string).

Record World := {
  store : Store;
  schedule : list Turn;   (* the turns to come; calm once exhausted *)
  events : list Event;    (* most recent last *)
  now : nat               (* what [new Date()] reads *)
}.

Abbreviation M := (State World).

Definition get_store : M Store := gets store.
Definition put_store (s : Store) : M unit := modify (fun w =>
  {| store := s; schedule := schedule w; events := events w; now := now w |}).
Definition log (e : Event) : M unit := modify (fun w =>
  {| store := store w; schedule := schedule w;
     events := events w ++ [e]; now := now w |}).
(** [new Date()] *)
Definition clock : M nat := gets now.

Definition next_turn : M Turn := fun w =>
  match schedule w with
  | [] => (calm, w)
  | t :: rest =>
      (t, {| store := store w; schedule := rest; events := events w; now := now w |})
  end.

(** *** Table operations *)

Definition sensor_is (device_id : nat) (name : string) (s : Sensor) : bool :=
  Nat.eqb (sen_device_id s) device_id && String.eqb (sen_name s) name.

Definition add_sensor (device_id : nat) (name type unit : string) (at_ : nat)
    (s : Store) : Store * Sensor :=
  let row := {| sen_id := next_uuid s; sen_device_id := device_id;
                sen_name := name; sen_unit := unit; sen_type := type;
                sen_created_at := at_ |} in
  ({| devices := devices s; sensors := sensors s ++ [row];
      readings := readings s; next_uuid := S (next_uuid s);
      next_reading_id := next_reading_id s |}, row).

(** A concurrent first-sighting: the other request's insert, which the
    uniqueness constraint lets through only if the pair is new. *)
Definition rival_insert (at_ : nat) (s : Store) (r : nat * string) : Store :=
  if existsb (sensor_is (fst r) (snd r)) (sensors s) then s
  else fst (add_sensor (fst r) (snd r) (snd r) "" at_ s).

(** Time passes while a store call is awaited, and only then. *)
Definition advance (dt : nat) : M unit := modify (fun w =>
  {| store := store w; schedule := schedule w; events := events w;
     now := now w + dt |}).

Definition await : M bool :=
  t <- next_turn ;;
  advance (elapsed t) ;;;
  s <- get_store ;;
  n <- clock ;;
  put_store (fold_left (rival_insert n) (rivals t) s) ;;;
  ret (fails t).

(** [maybeSingle()]: no row is not an error, several rows are. *)
Definition maybe_single {A} (rows : list A) : Result (option A) :=
  match rows with
  | [] => inr None
  | [r] => inr (Some r)
  | _ => inl MultipleRows
  end.

(** [from('devices').select('id, user_id').eq('api_key', k).maybeSingle()] *)
Definition select_device (k : string) : M (Result (option Device)) :=
  down <- await ;;
  s <- get_store ;;
  let r := if down : bool then inl Unavailable
           else maybe_single (List.filter (fun d => String.eqb (dev_api_key d) k) (devices s)) in
  log (SelectDevice k (error r)) ;;;
  ret r.

(** [from('sensors').select('id').eq('device_id', d).eq('name', n).maybeSingle()] *)
Definition select_sensor (d : nat) (n : string) : M (Result (option Sensor)) :=
  down <- await ;;
  s <- get_store ;;
  let r := if down : bool then inl Unavailable
           else maybe_single (List.filter (sensor_is d n) (sensors s)) in
  log (SelectSensor d n (error r)) ;;;
  ret r.

(** [from('sensors').insert({device_id, name, type, unit}).select('id').single()] *)
Definition insert_sensor (d : nat) (name type unit : string) : M (Result Sensor) :=
  down <- await ;;
  s <- get_store ;;
  t <- clock ;;
  if down : bool then
    log (InsertSensor d name (Some Unavailable)) ;;; ret (inl Unavailable)
  else if negb (existsb (fun dv => Nat.eqb (dev_id dv) d) (devices s)) then
    log (InsertSensor d name (Some ForeignKeyViolation)) ;;;
    ret (inl ForeignKeyViolation)
  else if existsb (sensor_is d name) (sensors s) then
    log (InsertSensor d name (Some UniqueViolation)) ;;;
    ret (inl UniqueViolation)
  else
    let (s', row) := add_sensor d name type unit t s in
    put_store s' ;;;
    log (InsertSensor d name None) ;;;
    ret (inr row).

(** The trigger [update_device_last_seen]: the device that owns the sensor of
    the new reading takes the reading's timestamp. *)
Definition touch_device (device_id ts : nat) (d : Device) : Device :=
  if Nat.eqb (dev_id d) device_id then
    {| dev_id := dev_id d; dev_user_id := dev_user_id d; dev_name := dev_name d;
       dev_description := dev_description d; dev_api_key := dev_api_key d;
       dev_created_at := dev_created_at d; dev_last_seen := ts |}
  else d.

Definition update_device_last_seen (new : Reading) (s : Store) : list Device :=
  match List.find (fun x => Nat.eqb (sen_id x) (rd_sensor_id new)) (sensors s) with
  | Some x => map (touch_device (sen_device_id x) (rd_timestamp new)) (devices s)
  | None => devices s
  end.

(** [from('readings').insert({sensor_id, value, timestamp}).select().single()] *)
Definition insert_reading (sensor_id : nat) (value : Q) (ts : nat) : M (Result Reading) :=
  down <- await ;;
  s <- get_store ;;
  if down : bool then
    log (InsertReading sensor_id value (Some Unavailable)) ;;; ret (inl Unavailable)
  else if negb (existsb (fun x => Nat.eqb (sen_id x) sensor_id) (sensors s)) then
    log (InsertReading sensor_id value (Some ForeignKeyViolation)) ;;;
    ret (inl ForeignKeyViolation)
  else
    let row := {| rd_id := next_reading_id s; rd_sensor_id := sensor_id;
                  rd_value := value; rd_timestamp := ts |} in
    put_store {| devices := update_device_last_seen row s;
                 sensors := sensors s;
                 readings := readings s ++ [row];
                 next_uuid := next_uuid s;
                 next_reading_id := S (next_reading_id s) |} ;;;
    log (InsertReading sensor_id value None) ;;;
    ret (inr row).

(** *** The request and the response *)

(** [interface SensorReading] and [interface IngestPayload]: fields at their
    declared types; [None] is a field that is absent ([undefined]) or [null],
    and for [readings] also a value that is not an array. *)
Record SensorReading := { sensor_name : option string; value : option Q }.
Record IngestPayload := {
  device_key : option string;
  readings_of : option (list SensorReading)
}.

Inductive Method := OPTIONS | POST | GET | PUT | DELETE | PATCH | HEAD.

(** [req.json()] either parses the body or rejects with an error message. *)
Record Request := { method : Method; json : string + IngestPayload }.

Inductive Body :=
| NoBody
| ErrorBody (error_ : string) (details : option string)
| SuccessBody (success : bool) (device_id : nat) (readings_inserted : nat).

Record Response := {
  status : nat;
  headers : list (string * string);
  body : Body
}.

Definition corsHeaders : list (string * string) :=
  [ ("Access-Control-Allow-Origin", "*");
    ("Access-Control-Allow-Methods", "POST, OPTIONS");
    ("Access-Control-Allow-Headers",
     "Content-Type, Authorization, X-Client-Info, Apikey, x-device-key") ].

Definition jsonHeaders : list (string * string) :=
  (corsHeaders ++ [ ("Content-Type", "application/json") ])%list.

Definition respond (st : nat) (b : Body) : Response :=
  {| status := st; headers := jsonHeaders; body := b |}.

(** JavaScript truthiness of a string-or-absent value: [!x] holds for
    [undefined], [null] and the empty string. *)
Definition truthy (x : option string) : bool :=
  match x with
  | Some s => negb (String.eqb s "")
  | None => false
  end.

(** [value === undefined || value === null] *)
Definition nullish {A} (x : option A) : bool :=
  match x with Some _ => false | None => true end.

(** *** The body of the [for (const reading of readings)] loop

    [inserted] is [insertedReadings]; the result is the array after this
    iteration. *)
Definition process_reading (device : Device) (inserted : list Reading)
    (reading : SensorReading) : M (list Reading) :=
  if negb (truthy (sensor_name reading)) || nullish (value reading) then
    ret inserted                                                  (* continue *)
  else
    match sensor_name reading, value reading with
    | Some name, Some v =>
        looked <- select_sensor (dev_id device) name ;;
        resolved <-
          match data looked with
          | Some sensor => ret (Some sensor)
          | None =>
              created <- insert_sensor (dev_id device) name name "" ;;
              match created with
              | inl sensorError =>
                  log (ConsoleError "Error creating sensor:") ;;; ret None
              | inr newSensor => ret (Some newSensor)
              end
          end ;;
        match resolved with
        | None => ret inserted                                    (* continue *)
        | Some sensor =>
            ts <- clock ;;
            r <- insert_reading (sen_id sensor) v ts ;;
            match r with
            | inl readingError =>
                log (ConsoleError "Error inserting reading:") ;;; ret inserted
            | inr readingData => ret (inserted ++ [readingData])%list
            end
        end
    | _, _ => ret inserted
    end.

Fixpoint process_readings (device : Device) (inserted : list Reading)
    (rs : list SensorReading) : M (list Reading) :=
  match rs with
  | [] => ret inserted
  | reading :: rest =>
      inserted' <- process_reading device inserted reading ;;
      process_readings device inserted' rest
  end.

(** *** The handler

    [try_block] is the body of the [try]: it either throws (left, with the
    error's message) or returns a response.  [createClient] is taken to
    succeed (the two environment variables are set), and store calls report
    their failures in [error] rather than by throwing, as the client does.

    The body of a [Request] has the declared shape, on which the only throw
    is that of [req.json()]; [serve_json] below is the handler on any JSON
    body and is this one on the declared shape. *)
Definition invalid_payload : Response :=
  respond 400
    (ErrorBody "Invalid payload. Expected device_key and readings array." None).

Definition try_block (req : Request) : M (string + Response) :=
  match method req with
  | POST =>
      match json req with
      | inl message => ret (inl message)                          (* throws *)
      | inr payload =>
          if negb (truthy (device_key payload)) || nullish (readings_of payload) then
            ret (inr invalid_payload)
          else
            match device_key payload, readings_of payload with
            | Some key, Some batch =>
                looked <- select_device key ;;
                match looked with
                | inr (Some device) =>
                    inserted <- process_readings device [] batch ;;
                    ret (inr (respond 200
                      (SuccessBody true (dev_id device) (length inserted))))
                | _ =>
                    ret (inr (respond 401 (ErrorBody "Invalid device key" None)))
                end
            | _, _ => ret (inr invalid_payload)
            end
      end
  | _ => ret (inr (respond 405 (ErrorBody "Method not allowed" None)))
  end.

(** [Deno.serve(async (req) => ...)] *)
Definition serve (req : Request) : M Response :=
  match method req with
  | OPTIONS => ret {| status := 200; headers := corsHeaders; body := NoBody |}
  | _ =>
      outcome <- try_block req ;;
      match outcome with
      | inr response => ret response
      | inl message =>
          log (ConsoleError "Ingest error:") ;;;
          ret (respond 500 (ErrorBody "Internal server error" (Some message)))
      end
  end.

(** *** The handler on any JSON body

    [IngestPayload] and [SensorReading] are annotations only: [req.json()]
    resolves to whatever JSON value the body holds.  Two values make the
    handler throw where a value of the declared shape cannot.  The body
    [null]: [const { device_key, readings } = payload] throws.  An element
    [null] of [readings]: [const { sensor_name, value } = reading] throws
    inside the loop, after the elements before it were worked on.  Every
    other JSON value destructures to fields that are present or absent (all
    absent for a number, a string, a boolean or an array), which is what
    [None] stands for in [IngestPayload] and [SensorReading].

    In [JsonPayload], [None] as the body is the JSON value [null], and [None]
    in the array is an element [null]. *)
Record JsonPayload := {
  json_device_key : option string;
  json_readings : option (list (option SensorReading))
}.

Record JsonRequest := { json_method : Method; json_body : string + option JsonPayload }.

(** The messages of the two [TypeError]s, in the wording of V8. *)
Definition null_payload : string :=
  "Cannot destructure property 'device_key' of 'payload' as it is null.".
Definition null_reading : string :=
  "Cannot destructure property 'sensor_name' of 'reading' as it is null.".

(** The [for] loop over such an array: left when an element throws. *)
Fixpoint process_json_readings (device : Device) (inserted : list Reading)
    (rs : list (option SensorReading)) : M (string + list Reading) :=
  match rs with
  | [] => ret (inr inserted)
  | None :: _ => ret (inl null_reading)                            (* throws *)
  | Some reading :: rest =>
      inserted' <- process_reading device inserted reading ;;
      process_json_readings device inserted' rest
  end.

Definition try_block_json (req : JsonRequest) : M (string + Response) :=
  match json_method req with
  | POST =>
      match json_body req with
      | inl message => ret (inl message)                          (* throws *)
      | inr None => ret (inl null_payload)                        (* throws *)
      | inr (Some payload) =>
          if negb (truthy (json_device_key payload)) || nullish (json_readings payload)
          then ret (inr invalid_payload)
          else
            match json_device_key payload, json_readings payload with
            | Some key, Some batch =>
                looked <- select_device key ;;
                match looked with
                | inr (Some device) =>
                    outcome <- process_json_readings device [] batch ;;
                    match outcome with
                    | inl message => ret (inl message)
                    | inr inserted =>
                        ret (inr (respond 200
                          (SuccessBody true (dev_id device) (length inserted))))
                    end
                | _ =>
                    ret (inr (respond 401 (ErrorBody "Invalid device key" None)))
                end
            | _, _ => ret (inr invalid_payload)
            end
      end
  | _ => ret (inr (respond 405 (ErrorBody "Method not allowed" None)))
  end.

Definition serve_json (req : JsonRequest) : M Response :=
  match json_method req with
  | OPTIONS => ret {| status := 200; headers := corsHeaders; body := NoBody |}
  | _ =>
      outcome <- try_block_json req ;;
      match outcome with
      | inr response => ret response
      | inl message =>
          log (ConsoleError "Ingest error:") ;;;
          ret (respond 500 (ErrorBody "Internal server error" (Some message)))
      end
  end.

(** A request of the declared shape, among the requests with any body. *)
Definition declared (req : Request) : JsonRequest :=
  {| json_method := method req;
     json_body :=
       match json req with
       | inl message => inl message
       | inr payload =>
           inr (Some {| json_device_key := device_key payload;
                        json_readings := option_map (map Some) (readings_of payload) |})
       end |}.

Definition json_post (key : string) (batch : list (option SensorReading)) : JsonRequest :=
  {| json_method := POST;
     json_body := inr (Some {| json_device_key := Some key;
                               json_readings := Some batch |}) |}.

(** *** Requests and worlds used as running examples *)

Definition post (key : string) (batch : list SensorReading) : Request :=
  {| method := POST;
     json := inr {| device_key := Some key; readings_of := Some batch |} |}.

Definition entry (name : string) (v : Q) : SensorReading :=
  {| sensor_name := Some name; value := Some v |}.

Definition D1 : Device :=
  {| dev_id := 1; dev_user_id := 7; dev_name := "D1"; dev_description := "";
     dev_api_key := "abc123"; dev_created_at := 0; dev_last_seen := 0 |}.

Definition one_device : Store :=
  {| devices := [D1]; sensors := []; readings := [];
     next_uuid := 2; next_reading_id := 1 |}.

Definition world_of (s : Store) (turns : list Turn) : World :=
  {| store := s; schedule := turns; events := []; now := 100 |}.

Definition outage : Turn := {| rivals := []; fails := true; elapsed := 0 |}.
Definition first_sighting (d : nat) (name : string) : Turn :=
  {| rivals := [(d, name)]; fails := false; elapsed := 0 |}.

(** *** Vocabulary of the properties *)

(** An entry the loop passes over: name or value absent or [null]. *)
Definition malformed (r : SensorReading) : Prop :=
  sensor_name r = None \/ value r = None.

(** An entry the loop works on. *)
Definition well_formed (r : SensorReading) : bool :=
  truthy (sensor_name r) && negb (nullish (value r)).

(** A turn at which nobody else writes and the call is served. *)
Definition quiet (t : Turn) : Prop := rivals t = [] /\ fails t = false.

(** The turn the next store call of a world takes, and the world after the
    [await] of that call. *)
Definition turn_of (w : World) : Turn := hd calm (schedule w).

Definition awaited (w : World) : World :=
  {| store := fold_left (rival_insert (now w + elapsed (turn_of w)))
                (rivals (turn_of w)) (store w);
     schedule := tl (schedule w); events := events w;
     now := now w + elapsed (turn_of w) |}.

(** The worlds [log] and [put_store] lead to. *)
Definition logged (e : Event) (w : World) : World :=
  {| store := store w; schedule := schedule w; events := events w ++ [e];
     now := now w |}.

Definition stored (s : Store) (w : World) : World :=
  {| store := s; schedule := schedule w; events := events w; now := now w |}.

(** The row a served reading insert creates, and the store with it. *)
Definition reading_row (sensor_id : nat) (v : Q) (ts : nat) (s : Store) : Reading :=
  {| rd_id := next_reading_id s; rd_sensor_id := sensor_id; rd_value := v;
     rd_timestamp := ts |}.

Definition add_reading (row : Reading) (s : Store) : Store :=
  {| devices := update_device_last_seen row s; sensors := sensors s;
     readings := readings s ++ [row]; next_uuid := next_uuid s;
     next_reading_id := S (next_reading_id s) |}.

(** The 401 response. *)
Definition invalid_device_key : Response :=
  respond 401 (ErrorBody "Invalid device key" None).

(** The race of two first-sightings: the lookup of this request misses, the
    other request's insert lands before this request's insert is served. *)
Definition race_world : World :=
  world_of one_device [calm; calm; first_sighting 1 "temp"].

Definition race_request : Request := post "abc123" [entry "temp" (43 # 2)%Q].

Definition race_outcome : Response * World := serve race_request race_world.

(** Reading of "the conflict is resolved by retrying the lookup": every
    sensor insert that came back with a uniqueness violation is followed by
    another lookup of the same (device, name). *)
Definition retries_lookup_after_conflict (evs : list Event) : Prop :=
  forall before d n rest,
    evs = before ++ InsertSensor d n (Some UniqueViolation) :: rest ->
    exists err, In (SelectSensor d n err) rest.

(** The constraints of the schema the handler relies on:
    [UNIQUE(device_id, name)] on [sensors], and the presence of the device
    row the sensors refer to. *)
Definition unique_sensors (s : Store) : Prop :=
  forall d n, length (List.filter (sensor_is d n) (sensors s)) <= 1.

Definition has_device (s : Store) (id : nat) : Prop :=
  existsb (fun dv => Nat.eqb (dev_id dv) id) (devices s) = true.

(** A world in which the rest of the request runs undisturbed, on a store
    that satisfies its constraints. *)
Definition settled (device : Device) (w : World) : Prop :=
  Forall quiet (schedule w) /\
  unique_sensors (store w) /\
  has_device (store w) (dev_id device).

(** Reading of "the number of entries whose [sensor_name] and [value] are both
    present". *)
Definition present (r : SensorReading) : bool :=
  negb (nullish (sensor_name r)) && negb (nullish (value r)).

Definition reports_present_count (key : string) (batch : list SensorReading)
    (w : World) : Prop :=
  exists id,
    body (fst (serve (post key batch) w)) =
    SuccessBody true id (length (List.filter present batch)).

(** A batch with an empty name, served while the store fails the one reading
    insert. *)
Definition partial_batch : list SensorReading :=
  [ entry "" (1 # 1)%Q; entry "temp" (2 # 1)%Q ].

Definition partial_world : World :=
  world_of one_device [calm; calm; calm; outage].

(** *** Vocabulary of further properties *)

(** A sensor row as the endpoint creates it on a first sighting: type set to
    the name, empty unit. *)
Definition implicit (s : Sensor) : Prop :=
  sen_type s = sen_name s /\ sen_unit s = "".

(** A device row with its [last_seen] put aside. *)
Definition identity_of (d : Device) : Device :=
  {| dev_id := dev_id d; dev_user_id := dev_user_id d; dev_name := dev_name d;
     dev_description := dev_description d; dev_api_key := dev_api_key d;
     dev_created_at := dev_created_at d; dev_last_seen := 0 |}.

(** [s'] is [s] grown: readings and sensors appended at the end, the new
    sensors implicit, the devices the same up to [last_seen]. *)
Definition grown (s s' : Store) : Prop :=
  (exists rows, readings s' = readings s ++ rows) /\
  (exists fresh, sensors s' = sensors s ++ fresh /\ Forall implicit fresh) /\
  map identity_of (devices s') = map identity_of (devices s).

(** Sensor ids are distinct and below the next one to be generated. *)
Definition fresh_ids (s : Store) : Prop :=
  NoDup (map sen_id (sensors s)) /\
  Forall (fun x => sen_id x < next_uuid s) (sensors s).

(** The values of the entries the loop works on, in batch order. *)
Definition accepted (batch : list SensorReading) : list SensorReading :=
  List.filter well_formed batch.

(** The reading row [row] is the one for entry [r] of device [d] in store
    [s]: it carries the entry's value and the id of the sensor of [d] that
    has the entry's name. *)
Definition row_of_entry (d : nat) (s : Store)
    (row : Reading) (r : SensorReading) : Prop :=
  Some (rd_value row) = value r /\
  exists x, In x (sensors s) /\ sen_id x = rd_sensor_id row /\
            sen_device_id x = d /\ Some (sen_name x) = sensor_name r.

(** The names the sensors of device [d] carry, in table order. *)
Definition names_of (d : nat) (l : list Sensor) : list string :=
  map sen_name (List.filter (fun x => Nat.eqb (sen_device_id x) d) l).

(** The first sightings of a batch, given the names [known] for the device:
    the names of the entries the loop works on that are not known, each
    once, in order of first appearance. *)
Fixpoint first_sightings (known : list string) (batch : list SensorReading)
    : list string :=
  match batch with
  | [] => []
  | r :: rest =>
      match sensor_name r with
      | Some name =>
          if well_formed r && negb (existsb (String.eqb name) known)
          then name :: first_sightings (known ++ [name]) rest
          else first_sightings known rest
      | None => first_sightings known rest
      end
  end.

Definition repeated_names : list SensorReading :=
  [ entry "temp" (43 # 2)%Q; entry "hum" (40 # 1)%Q; entry "" (1 # 1)%Q;
    entry "temp" (22 # 1)%Q ].

(** The instants [ts] are in order, from [lo] on and up to [hi]. *)
Fixpoint ascending (lo : nat) (ts : list nat) (hi : nat) : Prop :=
  match ts with
  | [] => lo <= hi
  | t :: rest => lo <= t /\ ascending t rest hi
  end.

(** The devices after the trigger has run for the rows [rows] of device
    [d], in order: [last_seen] is the timestamp of the last of them. *)
Definition seen_at (d : nat) (rows : list Reading) (ds : list Device) : list Device :=
  match last rows with
  | None => ds
  | Some row => map (touch_device d (rd_timestamp row)) ds
  end.

(** A turn of the schedule that only takes time. *)
Definition lapse (dt : nat) : Turn := {| rivals := []; fails := false; elapsed := dt |}.

(** One device and a database whose answers take 3, 4, 5, 6, 1, 2 and 3
    units of time. *)
Definition slow_world : World := world_of one_device (map lapse [3; 4; 5; 6; 1; 2; 3]).

Definition two_entries : list SensorReading :=
  [ entry "temp" (43 # 2)%Q; entry "" (1 # 1)%Q; entry "hum" (40 # 1)%Q ].

End Ingest.

(** ** The traffic simulator *)
Module Simulator.

(** [interface SimulatorState] *)
Record SimulatorState := {
  deviceId : string;
  sensorId : string;
  sensorName : string;
  sensorType : string;
  sensorUnit : string;
  isRunning : bool;
  intervalId : option nat;      (* number | null *)
  currentValue : Q
}.

(** What the session sends out.  The store client can insert a row into a
    table; a request to an edge function (such as [ingest]) is the other way
    a reading can leave the session. *)
Inductive Outbound :=
| TableInsert (table : string) (sensor_id : string) (value : Q) (timestamp : nat)
| FunctionPost (function : string) (device_key : string) (batch : list (string * Q)).

(** The mutable world of the provider: its React state, the intervals armed
    in the window (each with the [sensorId] and [type] its callback closes
    over), the handle the next [setInterval] returns, what has been sent, the
    results of [Math.random()] to come and the clock.  Numbers are exact
    rationals. *)
Record World := {
  simulators : gmap string SimulatorState;
  intervals : gmap nat (string * string);
  next_handle : nat;
  outbox : list Outbound;
  random : nat -> Q;
  draws : nat;
  now : nat
}.

Abbreviation M := (State World).

Definition with_simulators (m : gmap string SimulatorState) (w : World) : World :=
  {| simulators := m; intervals := intervals w; next_handle := next_handle w;
     outbox := outbox w; random := random w; draws := draws w; now := now w |}.

(** [setSimulators(prev => ...)] *)
Definition setSimulators
    (f : gmap string SimulatorState -> gmap string SimulatorState) : M unit :=
  modify (fun w => with_simulators (f (simulators w)) w).

(** [Math.random()] *)
Definition Math_random : M Q := fun w =>
  (random w (draws w),
   {| simulators := simulators w; intervals := intervals w;
      next_handle := next_handle w; outbox := outbox w; random := random w;
      draws := S (draws w); now := now w |}).

(** [window.setInterval(callback, 5000)]: handles are positive and fresh. *)
Definition setInterval (sensor type : string) : M nat := fun w =>
  (next_handle w,
   {| simulators := simulators w;
      intervals := <[next_handle w := (sensor, type)]> (intervals w);
      next_handle := S (next_handle w); outbox := outbox w; random := random w;
      draws := draws w; now := now w |}).

Definition clearInterval (h : nat) : M unit := modify (fun w =>
  {| simulators := simulators w; intervals := delete h (intervals w);
     next_handle := next_handle w; outbox := outbox w; random := random w;
     draws := draws w; now := now w |}).

(** ASCII [toLowerCase]. *)
Definition lower (c : Ascii.ascii) : Ascii.ascii :=
  let n := Ascii.nat_of_ascii c in
  if Nat.leb 65 n && Nat.leb n 90 then Ascii.ascii_of_nat (n + 32) else c.

Fixpoint toLowerCase (s : string) : string :=
  match s with
  | EmptyString => EmptyString
  | String c rest => String (lower c) (toLowerCase rest)
  end.

(** The [switch] of [generateValue]: the baseline of a sensor type. *)
Definition baseline (type : string) : M Q :=
  let t := toLowerCase type in
  if String.eqb t "temperature" then r <- Math_random ;; ret (20 + r * 10)%Q
  else if String.eqb t "humidity" then r <- Math_random ;; ret (40 + r * 40)%Q
  else if String.eqb t "pressure" then r <- Math_random ;; ret (1000 + r * 50)%Q
  else if String.eqb t "light" then r <- Math_random ;; ret (r * 1000)%Q
  else if String.eqb t "co2" then r <- Math_random ;; ret (400 + r * 600)%Q
  else if String.eqb t "voltage" then r <- Math_random ;; ret (3 + r * 2)%Q
  else r <- Math_random ;; ret (r * 100)%Q.

(** [generateValue].  Numbers are exact rationals here, where the code
    computes in doubles.  Rounding to a double is monotone and the ends of
    the ranges below are doubles, so a bound with its end included carries
    over to the code; a strict bound does not, as a sum just below an end
    can round to it. *)
Definition generateValue (type : string) (previousValue : option Q) : M Q :=
  baseValue <- match previousValue with
               | Some p => ret p
               | None => baseline type
               end ;;
  r <- Math_random ;;
  let variation := ((r - (1 # 2)) * 2)%Q in
  ret (Qmax 0 (baseValue + variation)).

(** [sendReading]: an insert into the [readings] table through the store
    client; its outcome is only written to the console. *)
Definition sendReading (sensor : string) (value : Q) : M unit := fun w =>
  (tt,
   {| simulators := simulators w; intervals := intervals w;
      next_handle := next_handle w;
      outbox := outbox w ++ [TableInsert "readings" sensor value (now w)];
      random := random w; draws := draws w; now := now w |}).

(** [simulators.get(sensorId)?.isRunning || false], on the [simulators] of
    the render the caller's closure was made in. *)
Definition ctx_isRunning (rendered : gmap string SimulatorState) (sensor : string) : bool :=
  match rendered !! sensor with
  | Some sim => isRunning sim
  | None => false
  end.

Definition getSimulator (rendered : gmap string SimulatorState) (sensor : string)
    : option SimulatorState := rendered !! sensor.

(** The callback of the interval armed by [startSimulator]. *)
Definition on_interval (sensor type : string) : M unit :=
  prev <- gets simulators ;;
  match prev !! sensor with
  | None => ret tt                                            (* return prev *)
  | Some current =>
      newValue <- generateValue type (Some (currentValue current)) ;;
      sendReading sensor newValue ;;;
      setSimulators (fun _ =>
        <[sensor := {| deviceId := deviceId current; sensorId := sensorId current;
                       sensorName := sensorName current;
                       sensorType := sensorType current;
                       sensorUnit := sensorUnit current;
                       isRunning := isRunning current;
                       intervalId := intervalId current;
                       currentValue := newValue |}]> prev)
  end.

(** [startSimulator], called through a closure that sees [rendered]. *)
Definition startSimulator (rendered : gmap string SimulatorState)
    (device sensor name type unit' : string) : M unit :=
  if ctx_isRunning rendered sensor then ret tt
  else
    initialValue <- generateValue type None ;;
    sendReading sensor initialValue ;;;
    handle <- setInterval sensor type ;;
    setSimulators (fun prev =>
      <[sensor := {| deviceId := device; sensorId := sensor; sensorName := name;
                     sensorType := type; sensorUnit := unit'; isRunning := true;
                     intervalId := Some handle;
                     currentValue := initialValue |}]> prev).

(** Truthiness of [number | null]. *)
Definition armed (h : option nat) : option nat :=
  match h with
  | Some (S n) => Some (S n)
  | _ => None
  end.

(** [stopSimulator], called through a closure that sees [rendered]. *)
Definition stopSimulator (rendered : gmap string SimulatorState)
    (sensor : string) : M unit :=
  match rendered !! sensor ≫= (fun sim => armed (intervalId sim)) with
  | Some h => clearInterval h
  | None => ret tt
  end ;;;
  setSimulators (fun prev => delete sensor prev).

(** An armed interval fires: its callback runs. *)
Definition fire (h : nat) : M unit := fun w =>
  match intervals w !! h with
  | Some (sensor, type) => on_interval sensor type w
  | None => (tt, w)
  end.

(** *** The provider

    [useState(new Map())] and the mount effect [useEffect(..., [])].  The
    effect runs once, after the first render, so the cleanup it returns closes
    over the [simulators] of that render: the initial map.  State updates
    publish new maps and leave that one as it was. *)
Record Provider := {
  world : World;
  first_render : gmap string SimulatorState
}.

Definition mount (rnd : nat -> Q) (time : nat) : Provider :=
  let initial : gmap string SimulatorState := ∅ in
  {| world := {| simulators := initial; intervals := ∅; next_handle := 1;
                 outbox := []; random := rnd; draws := 0; now := time |};
     first_render := initial |}.

(** The cleanup of the mount effect:
    [simulators.forEach(sim => { if (sim.intervalId) clearInterval(sim.intervalId) })] *)
Definition cleanup (p : Provider) : World :=
  map_fold (fun _ sim w =>
              match armed (intervalId sim) with
              | Some h => snd (clearInterval h w)
              | None => w
              end)
           (world p) (first_render p).

(** What happens in a session between mount and unmount.  A start or stop is
    a click handled by the closures of the latest render. *)
Inductive Action :=
| Start (device sensor name type unit : string)
| Stop (sensor : string)
| Fire (handle : nat)
| Elapse (ms : nat).

Definition elapse (ms : nat) (w : World) : World :=
  {| simulators := simulators w; intervals := intervals w;
     next_handle := next_handle w; outbox := outbox w; random := random w;
     draws := draws w; now := now w + ms |}.

Definition step (w : World) (a : Action) : World :=
  match a with
  | Start device sensor name type unit =>
      snd (startSimulator (simulators w) device sensor name type unit w)
  | Stop sensor => snd (stopSimulator (simulators w) sensor w)
  | Fire h => snd (fire h w)
  | Elapse ms => elapse ms w
  end.

Definition run (acts : list Action) (w : World) : World := fold_left step acts w.

Definition session (acts : list Action) (p : Provider) : Provider :=
  {| world := run acts (world p); first_render := first_render p |}.

Definition unmount (p : Provider) : Provider :=
  {| world := cleanup p; first_render := first_render p |}.

(** *** Vocabulary of the properties *)

(** A reading written straight into the [readings] table. *)
Definition sent (sensor : string) (time : nat) (v : Q) : Outbound :=
  TableInsert "readings" sensor v time.

Definition direct_insert (o : Outbound) : Prop :=
  match o with
  | TableInsert table _ _ _ => table = "readings"
  | FunctionPost _ _ _ => False
  end.

(** Reading of "submitted through the Ingestion Endpoint". *)
Definition through_ingestion (o : Outbound) : Prop :=
  match o with
  | FunctionPost function _ _ => function = "ingest"
  | TableInsert _ _ _ _ => False
  end.

(** Every armed interval belongs to a map entry that records its handle;
    entries are running and carry a positive handle; handles are below the
    next one. *)
Definition consistent (w : World) : Prop :=
  (forall h sensor type,
     intervals w !! h = Some (sensor, type) ->
     exists sim, simulators w !! sensor = Some sim /\ intervalId sim = Some h) /\
  (forall sensor sim,
     simulators w !! sensor = Some sim ->
     isRunning sim = true /\ exists h, intervalId sim = Some (S h)) /\
  (forall h, is_Some (intervals w !! h) -> h < next_handle w) /\
  0 < next_handle w.

(** Successive values, each within one unit of the one before. *)
Fixpoint smooth (vs : list Q) : Prop :=
  match vs with
  | a :: rest =>
      match rest with
      | b :: _ => (Qabs (b - a) <= 1)%Q /\ smooth rest
      | [] => True
      end
  | [] => True
  end.

Definition constant_half : nat -> Q := fun _ => (1 # 2)%Q.

Definition humidity_session : Provider :=
  session [Start "d1" "s1" "Humidity" "humidity" "%"] (mount constant_half 0).

(** *** The callers of the provider *)

(** [interface Sensor] of the simulator page. *)
Record PageSensor := {
  row_id : string;
  row_device_id : string;
  row_name : string;
  row_type : string;
  row_unit : string
}.

(** [toggleSimulator] of the simulator page, with the context functions of
    the render it was made in. *)
Definition toggleSimulator (rendered : gmap string SimulatorState)
    (device : string) (sensor : PageSensor) : M unit :=
  if ctx_isRunning rendered (row_id sensor) then
    stopSimulator rendered (row_id sensor)
  else
    startSimulator rendered device (row_id sensor) (row_name sensor)
      (row_type sensor) (row_unit sensor).

(** [runningSensors] of the device card:
    [sensors.filter(sensor => Array.from(simulators.values())
       .some(sim => sim.sensorId === sensor.id && sim.isRunning))],
    for rows of any shape with an [id]. *)
Definition runningSensors {A} (id : A -> string) (sensors : list A)
    (rendered : gmap string SimulatorState) : list A :=
  List.filter
    (fun sensor =>
       existsb (fun sim => String.eqb (sensorId sim) (id sensor) && isRunning sim)
               (map snd (map_to_list rendered)))
    sensors.

(** The sensor an action is about, if any. *)
Definition target (w : World) (a : Action) : option string :=
  match a with
  | Start _ sensor _ _ _ => Some sensor
  | Stop sensor => Some sensor
  | Fire h => fst <$> intervals w !! h
  | Elapse _ => None
  end.

(** Two entries that differ at most in [currentValue]. *)
Definition same_but_value (a b : SimulatorState) : Prop :=
  deviceId b = deviceId a /\ sensorId b = sensorId a /\
  sensorName b = sensorName a /\ sensorType b = sensorType a /\
  sensorUnit b = sensorUnit a /\ isRunning b = isRunning a /\
  intervalId b = intervalId a.

(** *** Vocabulary of further properties *)

(** The values sent for a sensor, oldest first. *)
Definition values_for (sensor : string) (out : list Outbound) : list Q :=
  flat_map (fun o => match o with
                     | TableInsert _ s v _ => if String.eqb s sensor then [v] else []
                     | FunctionPost _ _ _ => []
                     end) out.

(** The sensor a sent reading is for. *)
Definition sensor_of (o : Outbound) : option string :=
  match o with
  | TableInsert _ s _ _ => Some s
  | FunctionPost _ _ _ => None
  end.

(** The sensor has been started at some point of the actions. *)
Definition started (acts : list Action) (sensor : string) : Prop :=
  exists device name type unit', In (Start device sensor name type unit') acts.

(** Every map entry is filed under its own sensor id, and the interval it
    records is armed with the callback of that sensor and type. *)
Definition faithful (w : World) : Prop :=
  forall sensor sim,
    simulators w !! sensor = Some sim ->
    sensorId sim = sensor /\
    exists h, intervalId sim = Some h /\
              intervals w !! h = Some (sensor, sensorType sim).

(** The interval a first value falls in, by lower-cased type: the range of
    the [switch], widened by the one unit of the perturbation and cut at 0. *)
Definition range_of (t : string) : Q * Q :=
  if String.eqb t "temperature" then (19 # 1, 31 # 1)%Q
  else if String.eqb t "humidity" then (39 # 1, 81 # 1)%Q
  else if String.eqb t "pressure" then (999 # 1, 1051 # 1)%Q
  else if String.eqb t "light" then (0 # 1, 1001 # 1)%Q
  else if String.eqb t "co2" then (399 # 1, 1001 # 1)%Q
  else if String.eqb t "voltage" then (2 # 1, 6 # 1)%Q
  else (0 # 1, 101 # 1)%Q.

End Simulator.

(** ** What the dashboard shows *)
Module Display.





(** [formatTimestamp] of the device card, on the two instants in
    milliseconds ([getTime()]).  The result is the number and the unit of the
    label ["<n>s ago"], ["<n>m ago"], ["<n>h ago"] or ["<n>d ago"];
    [Math.floor] of a quotient is the floor division of [Z]. *)
Inductive Ago :=
| SecondsAgo (n : Z)
| MinutesAgo (n : Z)
| HoursAgo (n : Z)
| DaysAgo (n : Z).

Definition formatTimestamp (date now : Z) : Ago :=
  let diff := (now - date)%Z in
  let seconds := (diff / 1000)%Z in
  if (seconds <? 60)%Z then SecondsAgo seconds
  else if (seconds <? 3600)%Z then MinutesAgo (seconds / 60)
  else if (seconds <? 86400)%Z then HoursAgo (seconds / 3600)
  else DaysAgo (seconds / 86400).

(** The seconds a label stands for, at least. *)
Definition seconds_of (a : Ago) : Z :=
  match a with
  | SecondsAgo n => n
  | MinutesAgo n => 60 * n
  | HoursAgo n => 3600 * n
  | DaysAgo n => 86400 * n
  end.

(** The length in seconds of the unit of a label. *)
Definition unit_of (a : Ago) : Z :=
  match a with
  | SecondsAgo _ => 1
  | MinutesAgo _ => 60
  | HoursAgo _ => 3600
  | DaysAgo _ => 86400
  end.

End Display.

(** ** Properties of the ingestion endpoint *)
Module IngestFacts.
Import Ingest.

(** *** What concurrent first-sightings leave alone *)

Lemma rival_insert_devices n s r : devices (rival_insert n s r) = devices s.
Proof. unfold rival_insert. destruct (existsb _ _); reflexivity. Qed.

Lemma rival_insert_readings n s r : readings (rival_insert n s r) = readings s.
Proof. unfold rival_insert. destruct (existsb _ _); reflexivity. Qed.

Lemma rivals_devices n rs s :
  devices (fold_left (rival_insert n) rs s) = devices s.
Proof.
  revert s. induction rs as [|r rs IH]; intros s; simpl; [reflexivity|].
  rewrite IH. apply rival_insert_devices.
Qed.

Lemma rivals_readings n rs s :
  readings (fold_left (rival_insert n) rs s) = readings s.
Proof.
  revert s. induction rs as [|r rs IH]; intros s; simpl; [reflexivity|].
  rewrite IH. apply rival_insert_readings.
Qed.

(** *** One [await] *)

Lemma await_eq w : await w = (fails (turn_of w), awaited w).
Proof.
  unfold await, awaited, turn_of, bind, next_turn, advance, get_store, put_store,
    clock, gets, modify, ret.
  destruct (schedule w) as [|t rest] eqn:E; simpl; rewrite ?E; reflexivity.
Qed.

Lemma awaited_quiet w : rivals (turn_of w) = [] ->
  store (awaited w) = store w.
Proof. intros H. unfold awaited. simpl. rewrite H. reflexivity. Qed.

Lemma select_device_eq k w :
  select_device k w =
  let r := if fails (turn_of w) then inl Unavailable
           else maybe_single
                  (List.filter (fun d => String.eqb (dev_api_key d) k)
                          (devices (store (awaited w)))) in
  (r, {| store := store (awaited w); schedule := schedule (awaited w);
         events := events w ++ [SelectDevice k (error r)];
         now := now (awaited w) |}).
Proof.
  unfold select_device, bind. rewrite await_eq. reflexivity.
Qed.

Lemma filter_none {A} (f : A -> bool) (l : list A) :
  (forall x, In x l -> f x = false) -> List.filter f l = [].
Proof.
  induction l as [|a l IH]; intros H; simpl; [reflexivity|].
  rewrite (H a (or_introl eq_refl)). apply IH. intros x Hx. apply H. now right.
Qed.

Lemma select_sensor_eq d n w :
  select_sensor d n w =
  let r := if fails (turn_of w) then inl Unavailable
           else maybe_single
                  (List.filter (sensor_is d n) (sensors (store (awaited w)))) in
  (r, logged (SelectSensor d n (error r)) (awaited w)).
Proof.
  unfold select_sensor, bind. rewrite await_eq. reflexivity.
Qed.

Lemma insert_sensor_eq d name type unit w :
  insert_sensor d name type unit w =
  let w1 := awaited w in
  if fails (turn_of w) then
    (inl Unavailable, logged (InsertSensor d name (Some Unavailable)) w1)
  else if negb (existsb (fun dv => Nat.eqb (dev_id dv) d) (devices (store w1))) then
    (inl ForeignKeyViolation,
     logged (InsertSensor d name (Some ForeignKeyViolation)) w1)
  else if existsb (sensor_is d name) (sensors (store w1)) then
    (inl UniqueViolation, logged (InsertSensor d name (Some UniqueViolation)) w1)
  else
    (inr (snd (add_sensor d name type unit (now w1) (store w1))),
     logged (InsertSensor d name None)
       (stored (fst (add_sensor d name type unit (now w1) (store w1))) w1)).
Proof.
  unfold insert_sensor, bind. rewrite await_eq. simpl.
  destruct (fails (turn_of w)); [reflexivity|].
  destruct (negb _); [reflexivity|].
  destruct (existsb (sensor_is d name) _); reflexivity.
Qed.

Lemma insert_reading_eq sensor_id v ts w :
  insert_reading sensor_id v ts w =
  let w1 := awaited w in
  if fails (turn_of w) then
    (inl Unavailable, logged (InsertReading sensor_id v (Some Unavailable)) w1)
  else if negb (existsb (fun x => Nat.eqb (sen_id x) sensor_id) (sensors (store w1))) then
    (inl ForeignKeyViolation,
     logged (InsertReading sensor_id v (Some ForeignKeyViolation)) w1)
  else
    (inr (reading_row sensor_id v ts (store w1)),
     logged (InsertReading sensor_id v None)
       (stored (add_reading (reading_row sensor_id v ts (store w1)) (store w1)) w1)).
Proof.
  unfold insert_reading, bind. rewrite await_eq. simpl.
  destruct (fails (turn_of w)); [reflexivity|].
  destruct (negb _); reflexivity.
Qed.

(** *** The loop *)

Lemma process_reading_malformed device inserted r w :
  malformed r -> process_reading device inserted r w = (inserted, w).
Proof.
  intros [H | H]; unfold process_reading; rewrite H; simpl.
  - reflexivity.
  - rewrite orb_true_r. reflexivity.
Qed.

Lemma process_readings_app device before rest inserted w :
  process_readings device inserted (before ++ rest) w =
  process_readings device (fst (process_readings device inserted before w)) rest
                   (snd (process_readings device inserted before w)).
Proof.
  revert inserted w. induction before as [|r before IH]; intros inserted w.
  - reflexivity.
  - simpl. unfold bind.
    destruct (process_reading device inserted r w) as [ins w']. apply IH.
Qed.

Lemma process_readings_skip device before r rest inserted w :
  malformed r ->
  process_readings device inserted (before ++ r :: rest) w =
  process_readings device inserted (before ++ rest) w.
Proof.
  intros H. rewrite !process_readings_app. simpl. unfold bind.
  rewrite (process_reading_malformed _ _ _ _ H). reflexivity.
Qed.

(** C8. An entry of the batch whose [sensor_name] or [value] is missing or
    [null] is passed over in silence: the iteration leaves the inserted
    readings, the tables and the record of store calls as they were (no
    sensor lookup, no write, nothing logged), the rest of the batch is
    processed as if the entry were not there, and the response is the one
    the batch without the entry gets. *)
Theorem malformed_entry_silently_skipped :
  forall device key before r rest inserted w,
    malformed r ->
    process_reading device inserted r w = (inserted, w) /\
    process_readings device inserted (before ++ r :: rest) w =
      process_readings device inserted (before ++ rest) w /\
    serve (post key (before ++ r :: rest)) w =
      serve (post key (before ++ rest)) w.
Proof.
  intros device key before r rest inserted w H. split; [|split].
  - apply process_reading_malformed, H.
  - apply process_readings_skip, H.
  - unfold serve, try_block, post, bind. simpl.
    destruct (String.eqb key ""); simpl; [reflexivity|].
    destruct (select_device key w) as [[e | [d |]] w1]; try reflexivity.
    rewrite (process_readings_skip _ _ _ _ _ _ H). reflexivity.
Qed.

Lemma malformed_entry_silently_skipped_witness :
  let r := {| sensor_name := None; value := Some (5 # 1)%Q |} in
  serve (post "abc123" ([entry "temp" (43 # 2)%Q] ++ r :: [entry "hum" (60 # 1)%Q]))
        (world_of one_device []) =
  serve (post "abc123" ([entry "temp" (43 # 2)%Q] ++ [entry "hum" (60 # 1)%Q]))
        (world_of one_device []).
Proof.
  intros r.
  apply (malformed_entry_silently_skipped D1 "abc123" [entry "temp" (43 # 2)%Q] r
           [entry "hum" (60 # 1)%Q] [] (world_of one_device [])).
  left. reflexivity.
Defined.

(** *** A well-formed POST *)

Lemma nonempty_eqb (key : string) : key <> "" -> String.eqb key "" = false.
Proof. intros H. apply String.eqb_neq, H. Qed.

Lemma serve_post key batch w :
  key <> "" ->
  serve (post key batch) w =
  match select_device key w with
  | (inr (Some device), w1) =>
      (respond 200 (SuccessBody true (dev_id device)
                      (length (fst (process_readings device [] batch w1)))),
       snd (process_readings device [] batch w1))
  | (_, w1) => (respond 401 (ErrorBody "Invalid device key" None), w1)
  end.
Proof.
  intros Hkey. unfold serve, try_block, post, bind. simpl.
  rewrite (nonempty_eqb _ Hkey). simpl.
  destruct (select_device key w) as [[e | [d |]] w1]; try reflexivity.
  destruct (process_readings d [] batch w1) as [ins w2]. reflexivity.
Qed.

Lemma lookup_miss_is_401 key batch w :
  key <> "" ->
  (forall d, In d (devices (store w)) -> dev_api_key d <> key) ->
  serve (post key batch) w =
  (invalid_device_key,
   {| store := store (awaited w); schedule := schedule (awaited w);
      events := events w ++
        [SelectDevice key (if fails (turn_of w) then Some Unavailable else None)];
      now := now (awaited w) |}).
Proof.
  intros Hkey Hnone. rewrite (serve_post _ _ _ Hkey), select_device_eq.
  assert (Hf : List.filter (fun d => String.eqb (dev_api_key d) key)
                 (devices (store (awaited w))) = []).
  { apply filter_none. intros d Hd. apply String.eqb_neq, Hnone.
    unfold awaited in Hd. simpl in Hd. rewrite rivals_devices in Hd. exact Hd. }
  rewrite Hf. destruct (fails (turn_of w)); reflexivity.
Qed.

Lemma lookup_error_is_401 key batch w :
  key <> "" ->
  fails (turn_of w) = true ->
  serve (post key batch) w =
  (invalid_device_key,
   {| store := store (awaited w); schedule := schedule (awaited w);
      events := events w ++ [SelectDevice key (Some Unavailable)];
      now := now (awaited w) |}).
Proof.
  intros Hkey Hdown. rewrite (serve_post _ _ _ Hkey), select_device_eq, Hdown.
  reflexivity.
Qed.

(** C5. A POST with a well-formed payload whose [device_key] matches no
    device is answered 401 with the error ["Invalid device key"].  The only
    store call the handler issues is the device lookup: the [readings] table
    is as it was, and so is the whole store unless a concurrent request wrote
    to it meanwhile. *)
Theorem unknown_device_key_rejected :
  forall key batch w,
    key <> "" ->
    (forall d, In d (devices (store w)) -> dev_api_key d <> key) ->
    let after := serve (post key batch) w in
    status (fst after) = 401 /\
    body (fst after) = ErrorBody "Invalid device key" None /\
    (exists err, events (snd after) = events w ++ [SelectDevice key err]) /\
    readings (store (snd after)) = readings (store w) /\
    (rivals (turn_of w) = [] -> store (snd after) = store w).
Proof.
  intros key batch w Hkey Hnone after. subst after.
  rewrite (lookup_miss_is_401 _ _ _ Hkey Hnone). simpl.
  repeat split.
  - eexists. reflexivity.
  - apply rivals_readings.
  - intros Hq. rewrite Hq. reflexivity.
Qed.

Lemma unknown_device_key_rejected_witness :
  let after := serve (post "bad" [entry "temp" (43 # 2)%Q]) (world_of one_device []) in
  status (fst after) = 401 /\
  body (fst after) = ErrorBody "Invalid device key" None /\
  (exists err, events (snd after) = [SelectDevice "bad" err]) /\
  readings (store (snd after)) = [] /\
  (rivals calm = [] -> store (snd after) = one_device).
Proof.
  apply (unknown_device_key_rejected "bad" [entry "temp" (43 # 2)%Q]
           (world_of one_device [])).
  - discriminate.
  - intros d [<- | []]. discriminate.
Defined.

(** *** Where a 500 comes from *)

Lemma try_block_status req w r :
  fst (try_block req w) = inr r ->
  status r = 200 \/ status r = 400 \/ status r = 401 \/ status r = 405.
Proof.
  unfold try_block, bind.
  destruct (method req); try (simpl; intros [= <-]; auto).
  destruct (json req) as [message | payload]; [discriminate|].
  destruct (negb (truthy (device_key payload)) || nullish (readings_of payload));
    [simpl; intros [= <-]; auto|].
  destruct (device_key payload) as [key|], (readings_of payload) as [batch|];
    try (simpl; intros [= <-]; auto).
  destruct (select_device key w) as [[e | [d |]] w1];
    try (simpl; intros [= <-]; auto).
  destruct (process_readings d [] batch w1) as [ins w2].
  simpl; intros [= <-]; auto.
Qed.

Lemma serve_500_iff_thrown req w :
  status (fst (serve req w)) = 500 <->
  method req <> OPTIONS /\ exists message, fst (try_block req w) = inl message.
Proof.
  unfold serve, bind.
  destruct (method req) eqn:Hm;
    try (destruct (try_block req w) as [[message | r] w1] eqn:Ht; simpl;
         [ split; [intros _; split; [discriminate | eauto] | reflexivity]
         | split;
           [ intros H500;
             pose proof (try_block_status req w r) as Hs; rewrite Ht in Hs;
             specialize (Hs eq_refl); lia
           | intros [_ [message Hmsg]]; discriminate ] ]).
  simpl. split; [discriminate | intros [H _]; congruence].
Qed.

(** With payloads of the declared shape, [req.json()] is the one call of the
    [try] that can throw. *)
Lemma thrown_iff_body_rejected req w message :
  fst (try_block req w) = inl message <->
  method req = POST /\ json req = inl message.
Proof.
  unfold try_block, bind.
  destruct (method req); try (simpl; split; [discriminate | intros [? _]; discriminate]).
  destruct (json req) as [m | payload].
  - simpl. split; [intros [= ->]; auto | intros [_ [= ->]]; reflexivity].
  - split; [| intros [_ ?]; discriminate].
    destruct (negb (truthy (device_key payload)) || nullish (readings_of payload));
      [discriminate|].
    destruct (device_key payload) as [key|], (readings_of payload) as [batch|];
      try discriminate.
    destruct (select_device key w) as [[e | [d |]] w1]; try discriminate.
    destruct (process_readings d [] batch w1) as [ins w2]. discriminate.
Qed.

(** C10. When the device lookup itself fails, the answer is 401 with
    ["Invalid device key"], whether or not a device has the key, exactly as
    when no device matches; and the handler answers 500 exactly when the body
    of its [try] throws. *)
Theorem lookup_failure_is_401_and_500_only_by_exception :
  (forall key batch w,
     key <> "" -> fails (turn_of w) = true ->
     fst (serve (post key batch) w) = invalid_device_key) /\
  (forall key batch w,
     key <> "" ->
     (forall d, In d (devices (store w)) -> dev_api_key d <> key) ->
     fst (serve (post key batch) w) = invalid_device_key) /\
  (forall req w,
     status (fst (serve req w)) = 500 <->
     method req <> OPTIONS /\ exists message, fst (try_block req w) = inl message).
Proof.
  split; [|split].
  - intros key batch w Hkey Hdown.
    rewrite (lookup_error_is_401 _ _ _ Hkey Hdown). reflexivity.
  - intros key batch w Hkey Hnone.
    rewrite (lookup_miss_is_401 _ _ _ Hkey Hnone). reflexivity.
  - apply serve_500_iff_thrown.
Qed.

Lemma lookup_failure_is_401_and_500_only_by_exception_witness :
  fst (serve (post "abc123" [entry "temp" (43 # 2)%Q])
             (world_of one_device [outage])) = invalid_device_key.
Proof.
  apply (proj1 lookup_failure_is_401_and_500_only_by_exception
           "abc123" [entry "temp" (43 # 2)%Q] (world_of one_device [outage])).
  - discriminate.
  - reflexivity.
Defined.

(** *** Two posts of the same batch

    The scenario of the specification: the same batch posted twice creates
    the sensor once and reports two readings each time. *)
Example scenario_temp_twice :
  let batch := [entry "temp" (43 # 2); entry "temp" (22 # 1)] in
  let (r1, w1) := serve (post "abc123" batch) (world_of one_device []) in
  let (r2, w2) := serve (post "abc123" batch) w1 in
  body r1 = SuccessBody true 1 2 /\ body r2 = SuccessBody true 1 2 /\
  length (sensors (store w2)) = 1 /\ length (readings (store w2)) = 4.
Proof. vm_compute. repeat split. Qed.

(** *** A sensor insert that fails *)

Lemma select_sensor_readings d n w :
  readings (store (snd (select_sensor d n w))) = readings (store w).
Proof. rewrite select_sensor_eq. simpl. apply rivals_readings. Qed.

Lemma insert_sensor_failed d name type unit w err w' :
  insert_sensor d name type unit w = (inl err, w') ->
  w' = logged (InsertSensor d name (Some err)) (awaited w).
Proof.
  rewrite insert_sensor_eq. simpl.
  destruct (fails (turn_of w)); [intros [= <- <-]; reflexivity|].
  destruct (negb _); [intros [= <- <-]; reflexivity|].
  destruct (existsb (sensor_is d name) _); [intros [= <- <-]; reflexivity|].
  discriminate.
Qed.

(** C2, as the code has it.  When the lookup of a well-formed entry finds no
    row and the sensor insert then fails (with a uniqueness violation from a
    concurrent first-sighting as with any other error), the handler logs the
    error and passes over the entry: the calls issued for it are the lookup
    and the insert and nothing more (no second lookup, no reading insert),
    the inserted readings and the [readings] table are as before, and the
    loop goes on with the rest of the batch. *)
Theorem failed_sensor_insert_skips_entry :
  forall device name v inserted w looked w1 err w2,
    name <> "" ->
    select_sensor (dev_id device) name w = (looked, w1) ->
    data looked = None ->
    insert_sensor (dev_id device) name name "" w1 = (inl err, w2) ->
    let w3 := logged (ConsoleError "Error creating sensor:") w2 in
    process_reading device inserted (entry name v) w = (inserted, w3) /\
    events w3 = events w ++
      [ SelectSensor (dev_id device) name (error looked);
        InsertSensor (dev_id device) name (Some err);
        ConsoleError "Error creating sensor:" ] /\
    readings (store w3) = readings (store w) /\
    (forall rest,
       process_readings device inserted (entry name v :: rest) w =
       process_readings device inserted rest w3).
Proof.
  intros device name v inserted w looked w1 err w2 Hname Hsel Hdata Hins w3.
  assert (Hstep : process_reading device inserted (entry name v) w = (inserted, w3)).
  { unfold process_reading, entry, bind. simpl.
    rewrite (nonempty_eqb _ Hname). simpl.
    rewrite Hsel, Hdata. rewrite Hins. reflexivity. }
  split; [exact Hstep|]. split; [|split].
  - pose proof (insert_sensor_failed _ _ _ _ _ _ _ Hins) as ->.
    rewrite select_sensor_eq in Hsel. simpl in Hsel.
    injection Hsel as <- <-. subst w3. simpl.
    rewrite <- !app_assoc. reflexivity.
  - pose proof (insert_sensor_failed _ _ _ _ _ _ _ Hins) as ->.
    subst w3. simpl. rewrite rivals_readings.
    pose proof (select_sensor_readings (dev_id device) name w) as Hr.
    rewrite Hsel in Hr. exact Hr.
  - intros rest. simpl. unfold bind at 1. rewrite Hstep. reflexivity.
Qed.

Lemma failed_sensor_insert_skips_entry_witness :
  exists w3,
    process_reading D1 [] (entry "temp" (43 # 2)%Q)
      (world_of one_device [calm; first_sighting 1 "temp"]) = ([], w3) /\
    events w3 =
      [ SelectSensor 1 "temp" None;
        InsertSensor 1 "temp" (Some UniqueViolation);
        ConsoleError "Error creating sensor:" ] /\
    readings (store w3) = [].
Proof.
  pose proof (failed_sensor_insert_skips_entry D1 "temp" (43 # 2)%Q []
                (world_of one_device [calm; first_sighting 1 "temp"])
                _ _ UniqueViolation _
                ltac:(discriminate) eq_refl eq_refl eq_refl) as H.
  eexists. split; [exact (proj1 H)|]. split.
  - exact (proj1 (proj2 H)).
  - exact (proj1 (proj2 (proj2 H))).
Defined.

(** C2, as the specification words it, fails: in the race the insert comes
    back with a uniqueness violation, no lookup follows it, and the entry
    yields no reading although its sensor row exists. *)
Lemma conflict_is_not_retried :
  ~ retries_lookup_after_conflict (events (snd race_outcome)) /\
  body (fst race_outcome) = SuccessBody true 1 0 /\
  existsb (sensor_is 1 "temp") (sensors (store (snd race_outcome))) = true /\
  readings (store (snd race_outcome)) = [].
Proof.
  split; [|repeat split].
  intros H.
  destruct (H [SelectDevice "abc123" None; SelectSensor 1 "temp" None] 1 "temp"
              [ConsoleError "Error creating sensor:"] eq_refl) as [err [Hin | []]].
  discriminate.
Qed.

(** *** Inserted readings are the rows appended to the table *)

Lemma awaited_readings w : readings (store (awaited w)) = readings (store w).
Proof. apply rivals_readings. Qed.

Lemma insert_sensor_readings d name type unit w :
  readings (store (snd (insert_sensor d name type unit w))) = readings (store w).
Proof.
  rewrite insert_sensor_eq. simpl.
  destruct (fails (turn_of w)); [apply awaited_readings|].
  destruct (negb _); [apply awaited_readings|].
  destruct (existsb (sensor_is d name) _); apply awaited_readings.
Qed.

Lemma insert_reading_readings sensor_id v ts w :
  match fst (insert_reading sensor_id v ts w) with
  | inl _ => readings (store (snd (insert_reading sensor_id v ts w))) = readings (store w)
  | inr row =>
      readings (store (snd (insert_reading sensor_id v ts w))) = readings (store w) ++ [row]
  end.
Proof.
  rewrite insert_reading_eq. simpl.
  destruct (fails (turn_of w)); [apply awaited_readings|].
  destruct (negb _); simpl; [apply awaited_readings|].
  f_equal. apply rivals_readings.
Qed.

Lemma well_formed_entry name v : name <> "" -> well_formed (entry name v) = true.
Proof. intros H. unfold well_formed. simpl. rewrite (nonempty_eqb _ H). reflexivity. Qed.

Lemma not_well_formed_skipped device inserted r w :
  well_formed r = false -> process_reading device inserted r w = (inserted, w).
Proof.
  unfold well_formed, process_reading. intros H.
  replace (negb (truthy (sensor_name r)) || nullish (value r)) with true; [reflexivity|].
  destruct (truthy (sensor_name r)), (nullish (value r)); simpl in *; congruence.
Qed.

Lemma well_formed_fields r :
  well_formed r = true ->
  exists name v, sensor_name r = Some name /\ value r = Some v /\ name <> "".
Proof.
  unfold well_formed. destruct r as [[name|] [v|]]; simpl; try discriminate.
  - intros H. exists name, v. repeat split.
    apply andb_prop in H. destruct H as [H _].
    intros ->. discriminate.
  - rewrite andb_false_r. discriminate.
Qed.

(** The last step of an iteration: the reading insert either fails, and
    nothing changes, or appends the row that is pushed. *)
Ltac reading_step :=
  simpl;
  match goal with
  | |- context [insert_reading ?s ?v ?t ?w'] =>
      let Hir := fresh "Hir" in
      pose proof (insert_reading_readings s v t w') as Hir;
      destruct (insert_reading s v t w') as [[? | ?row] ?w'']; simpl in *;
      [ left; split; [reflexivity | congruence]
      | right; split; [reflexivity|]; eexists; split; [reflexivity | congruence] ]
  end.

Lemma process_reading_appends device inserted r w :
  (fst (process_reading device inserted r w) = inserted /\
   readings (store (snd (process_reading device inserted r w))) = readings (store w)) \/
  (well_formed r = true /\ exists row,
     fst (process_reading device inserted r w) = inserted ++ [row] /\
     readings (store (snd (process_reading device inserted r w))) =
       readings (store w) ++ [row]).
Proof.
  destruct (well_formed r) eqn:Hwf.
  2:{ left. rewrite (not_well_formed_skipped _ _ _ _ Hwf). auto. }
  destruct (well_formed_fields _ Hwf) as (name & v & Hn & Hv & Hne).
  unfold process_reading, bind. rewrite Hn, Hv. simpl.
  rewrite (nonempty_eqb _ Hne). simpl.
  pose proof (select_sensor_readings (dev_id device) name w) as Hsel.
  destruct (select_sensor (dev_id device) name w) as [looked w1]. simpl in Hsel.
  destruct (data looked) as [sensor|].
  - reading_step.
  - pose proof (insert_sensor_readings (dev_id device) name name "" w1) as Hins.
    destruct (insert_sensor (dev_id device) name name "" w1) as [[e | newSensor] w2];
      simpl in Hins.
    + left. simpl. split; [reflexivity | congruence].
    + reading_step.
Qed.

Lemma process_readings_appends device batch : forall inserted w,
  exists rows,
    fst (process_readings device inserted batch w) = inserted ++ rows /\
    readings (store (snd (process_readings device inserted batch w))) =
      readings (store w) ++ rows /\
    length rows <= length (List.filter well_formed batch).
Proof.
  induction batch as [|r batch IH]; intros inserted w.
  - exists []. simpl. rewrite !app_nil_r. repeat split. lia.
  - simpl. unfold bind.
    destruct (process_reading_appends device inserted r w) as [[Hi Hr] | [Hwf [row [Hi Hr]]]];
      destruct (process_reading device inserted r w) as [ins w1]; simpl in *; subst ins.
    + destruct (IH inserted w1) as (rows' & F1 & F2 & F3).
      exists rows'. rewrite F1, F2, Hr. repeat split.
      destruct (well_formed r); simpl; lia.
    + destruct (IH (inserted ++ [row]) w1) as (rows' & F1 & F2 & F3).
      exists (row :: rows'). rewrite F1, F2, Hr, Hwf, <- !app_assoc. simpl.
      repeat split. lia.
Qed.

(** *** An undisturbed run *)

Lemma turn_quiet w : Forall quiet (schedule w) -> quiet (turn_of w).
Proof.
  unfold turn_of. intros H. destruct (schedule w) as [|t rest]; simpl.
  - split; reflexivity.
  - inversion H; assumption.
Qed.

Lemma awaited_calm w :
  Forall quiet (schedule w) ->
  fails (turn_of w) = false /\ store (awaited w) = store w /\
  Forall quiet (schedule (awaited w)).
Proof.
  intros H. destruct (turn_quiet w H) as [Hr Hf]. repeat split.
  - exact Hf.
  - apply awaited_quiet, Hr.
  - simpl. destruct (schedule w) as [|t rest]; simpl; [constructor|].
    inversion H; assumption.
Qed.

Lemma select_sensor_calm d n w :
  Forall quiet (schedule w) ->
  exists w',
    select_sensor d n w =
      (maybe_single (List.filter (sensor_is d n) (sensors (store w))), w') /\
    store w' = store w /\ now w <= now w' /\ Forall quiet (schedule w').
Proof.
  intros H. destruct (awaited_calm w H) as (Hf & Hs & Hq).
  rewrite select_sensor_eq, Hf, Hs. cbv zeta. eexists. split; [reflexivity|].
  unfold logged. cbn [store schedule now]. split; [exact Hs|].
  split; [unfold awaited; cbn [now]; lia | exact Hq].
Qed.

Lemma insert_sensor_calm d name type unit w :
  Forall quiet (schedule w) ->
  has_device (store w) d ->
  existsb (sensor_is d name) (sensors (store w)) = false ->
  exists w',
    insert_sensor d name type unit w =
      (inr (snd (add_sensor d name type unit (now w') (store w))), w') /\
    store w' = fst (add_sensor d name type unit (now w') (store w)) /\
    now w <= now w' /\ Forall quiet (schedule w').
Proof.
  intros H Hd Hn. destruct (awaited_calm w H) as (Hf & Hs & Hq).
  rewrite insert_sensor_eq. cbv zeta. rewrite Hf, Hs.
  unfold has_device in Hd. rewrite Hd, Hn. cbn [negb].
  exists (logged (InsertSensor d name None)
            (stored (fst (add_sensor d name type unit (now (awaited w)) (store w)))
                    (awaited w))).
  split; [reflexivity|]. unfold logged, stored. cbn [store schedule now].
  split; [reflexivity|].
  split; [unfold awaited; cbn [now]; lia | exact Hq].
Qed.

Lemma insert_reading_calm sensor_id v ts w :
  Forall quiet (schedule w) ->
  existsb (fun x => Nat.eqb (sen_id x) sensor_id) (sensors (store w)) = true ->
  exists w',
    insert_reading sensor_id v ts w = (inr (reading_row sensor_id v ts (store w)), w') /\
    store w' = add_reading (reading_row sensor_id v ts (store w)) (store w) /\
    Forall quiet (schedule w').
Proof.
  intros H Hx. destruct (awaited_calm w H) as (Hf & Hs & Hq).
  rewrite insert_reading_eq. cbv zeta. rewrite Hf, Hs, Hx. cbn [negb].
  eexists. split; [reflexivity|]. unfold logged, stored. cbn [store schedule].
  split; [reflexivity | exact Hq].
Qed.

(** *** The constraints are kept *)

Lemma touch_device_id d ts x : dev_id (touch_device d ts x) = dev_id x.
Proof. unfold touch_device. destruct (Nat.eqb _ _); reflexivity. Qed.

Lemma has_device_add_reading row s id :
  has_device s id -> has_device (add_reading row s) id.
Proof.
  unfold has_device, add_reading, update_device_last_seen. simpl.
  destruct (List.find _ _) as [x|]; [|auto].
  intros H. apply existsb_exists in H. destruct H as (dv & Hin & Hid).
  apply existsb_exists. exists (touch_device (sen_device_id x) (rd_timestamp row) dv).
  split; [apply in_map, Hin | rewrite touch_device_id; exact Hid].
Qed.

Lemma sensor_is_inv d n x :
  sensor_is d n x = true -> sen_device_id x = d /\ sen_name x = n.
Proof.
  unfold sensor_is. intros H. apply andb_prop in H. destruct H as [H1 H2].
  split; [apply Nat.eqb_eq, H1 | apply String.eqb_eq, H2].
Qed.

Lemma filter_nil_existsb {A} (f : A -> bool) (l : list A) :
  List.filter f l = [] -> existsb f l = false.
Proof.
  induction l as [|a l IH]; simpl; [reflexivity|].
  destruct (f a); [discriminate | exact IH].
Qed.

Lemma unique_sensors_add d name type unit ts s :
  unique_sensors s ->
  List.filter (sensor_is d name) (sensors s) = [] ->
  unique_sensors (fst (add_sensor d name type unit ts s)).
Proof.
  intros Hu Hnew d' n'. simpl. rewrite List.filter_app, length_app. simpl.
  destruct (sensor_is d' n' _) eqn:Hm; simpl.
  - apply sensor_is_inv in Hm. simpl in Hm. destruct Hm as [-> ->].
    rewrite Hnew. simpl. lia.
  - specialize (Hu d' n'). lia.
Qed.

Lemma filter_single_in {A} (f : A -> bool) (l : list A) x :
  List.filter f l = [x] -> In x l /\ f x = true.
Proof.
  intros H. apply List.filter_In. rewrite H. now left.
Qed.

Lemma process_reading_calm device inserted r w :
  settled device w ->
  settled device (snd (process_reading device inserted r w)) /\
  length (fst (process_reading device inserted r w)) =
    length inserted + (if well_formed r then 1 else 0).
Proof.
  intros (Hq & Hu & Hd).
  destruct (well_formed r) eqn:Hwf.
  2:{ rewrite (not_well_formed_skipped _ _ _ _ Hwf). simpl.
      split; [repeat split; assumption | lia]. }
  destruct (well_formed_fields _ Hwf) as (name & v & Hn & Hv & Hne).
  unfold process_reading, bind. rewrite Hn, Hv. simpl.
  rewrite (nonempty_eqb _ Hne). simpl.
  destruct (select_sensor_calm (dev_id device) name w Hq) as (w1 & -> & Hs1 & Ht1 & Hq1).
  destruct (List.filter (sensor_is (dev_id device) name) (sensors (store w)))
    as [|sensor [|other more]] eqn:Hf; simpl.
  - (* first sighting *)
    destruct (insert_sensor_calm (dev_id device) name name "" w1 Hq1)
      as (w2 & -> & Hs2 & Ht2 & Hq2).
    { rewrite Hs1. exact Hd. }
    { rewrite Hs1. apply filter_nil_existsb, Hf. }
    simpl.
    destruct (insert_reading_calm (next_uuid (store w1)) v (now w2) w2 Hq2)
      as (w3 & -> & Hs3 & Hq3).
    { rewrite Hs2. simpl. rewrite existsb_app. simpl.
      rewrite Nat.eqb_refl. apply orb_true_r. }
    simpl. split; [|rewrite length_app; simpl; lia].
    split; [exact Hq3|]. rewrite Hs3. split.
    + intros d' n'. simpl. rewrite Hs2, Hs1.
      apply (unique_sensors_add _ _ name "" (now w2) _ Hu Hf).
    + apply has_device_add_reading. rewrite Hs2. simpl. rewrite Hs1. exact Hd.
  - (* the sensor is known *)
    destruct (filter_single_in _ _ _ Hf) as [Hin _].
    destruct (insert_reading_calm (sen_id sensor) v (now w1) w1 Hq1)
      as (w3 & -> & Hs3 & Hq3).
    { rewrite Hs1. apply existsb_exists. exists sensor.
      split; [exact Hin | apply Nat.eqb_refl]. }
    simpl. split; [|rewrite length_app; simpl; lia].
    split; [exact Hq3|]. rewrite Hs3, Hs1. split.
    + intros d' n'. simpl. apply Hu.
    + apply has_device_add_reading, Hd.
  - specialize (Hu (dev_id device) name). rewrite Hf in Hu. simpl in Hu. lia.
Qed.

Lemma process_readings_calm device batch : forall inserted w,
  settled device w ->
  settled device (snd (process_readings device inserted batch w)) /\
  length (fst (process_readings device inserted batch w)) =
    length inserted + length (List.filter well_formed batch).
Proof.
  induction batch as [|r batch IH]; intros inserted w H; simpl.
  - split; [exact H | lia].
  - unfold bind.
    destruct (process_reading_calm device inserted r w H) as [H1 L1].
    destruct (process_reading device inserted r w) as [ins w1]. simpl in *.
    destruct (IH ins w1 H1) as [H2 L2]. split; [exact H2|].
    rewrite L2, L1. destruct (well_formed r); simpl; lia.
Qed.

(** *** The count in the 200 response *)

Lemma matched_device_present key s device :
  List.filter (fun d => String.eqb (dev_api_key d) key) (devices s) = [device] ->
  has_device s (dev_id device).
Proof.
  intros H. destruct (filter_single_in _ _ _ H) as [Hin _].
  apply existsb_exists. exists device. split; [exact Hin | apply Nat.eqb_refl].
Qed.

(** C1, as the code has it.  For a POST with a well-formed payload whose key
    matches exactly one device, and whose device lookup is served, the answer
    is 200 with that device's id, and [readings_inserted] is the number of
    rows this request appended to the [readings] table.  That number is at
    most the number of entries with a non-empty name and a non-null value,
    and equals it when no store call fails or is overtaken by a concurrent
    write, whether the sensors existed before or were created on the way. *)
Theorem readings_inserted_counts_appended_rows :
  forall key batch w device,
    key <> "" ->
    List.filter (fun d => String.eqb (dev_api_key d) key) (devices (store w)) = [device] ->
    fails (turn_of w) = false ->
    exists rows : list Reading,
      fst (serve (post key batch) w) =
        respond 200 (SuccessBody true (dev_id device) (length rows)) /\
      readings (store (snd (serve (post key batch) w))) = readings (store w) ++ rows /\
      length rows <= length (List.filter well_formed batch) /\
      (Forall quiet (schedule w) -> unique_sensors (store w) ->
       length rows = length (List.filter well_formed batch)).
Proof.
  intros key batch w device Hkey Hone Hup.
  rewrite (serve_post _ _ _ Hkey), select_device_eq, Hup. cbv zeta.
  assert (Hdev : devices (store (awaited w)) = devices (store w))
    by apply rivals_devices.
  rewrite Hdev, Hone. cbn [maybe_single error].
  set (w1 := {| store := store (awaited w); schedule := schedule (awaited w);
                events := events w ++ [SelectDevice key None];
                now := now (awaited w) |}).
  destruct (process_readings_appends device batch [] w1) as (rows & Hins & Hrows & Hle).
  exists rows. cbn [fst snd]. rewrite Hins, Hrows. simpl.
  split; [reflexivity|]. split; [f_equal; apply rivals_readings|].
  split; [exact Hle|].
  intros Hq Hu.
  destruct (awaited_calm w Hq) as (_ & Hs & Hq1).
  assert (Hset : settled device w1).
  { split; [exact Hq1|]. unfold w1. cbn [store]. rewrite Hs.
    split; [exact Hu | apply (matched_device_present key), Hone]. }
  destruct (process_readings_calm device batch [] w1 Hset) as [_ Hlen].
  rewrite Hins in Hlen. simpl in Hlen. exact Hlen.
Qed.

Lemma readings_inserted_counts_appended_rows_witness :
  exists rows : list Reading,
    fst (serve (post "abc123" [entry "temp" (43 # 2)%Q; entry "temp" (22 # 1)%Q])
               (world_of one_device [])) =
      respond 200 (SuccessBody true 1 (length rows)) /\
    length rows = 2.
Proof.
  destruct (readings_inserted_counts_appended_rows "abc123"
              [entry "temp" (43 # 2)%Q; entry "temp" (22 # 1)%Q]
              (world_of one_device []) D1
              ltac:(discriminate) eq_refl eq_refl)
    as (rows & Hresp & _ & _ & Hall).
  exists rows. split; [exact Hresp|].
  apply Hall.
  - constructor.
  - intros d n. simpl. lia.
Defined.

(** C1, as the specification words it, fails: both entries of the batch have
    a name and a value, the key matches the one device, and the response
    reports no reading inserted. *)
Lemma present_entries_not_all_counted :
  List.filter (fun d => String.eqb (dev_api_key d) "abc123")
    (devices (store partial_world)) = [D1] /\
  length (List.filter present partial_batch) = 2 /\
  body (fst (serve (post "abc123" partial_batch) partial_world)) =
    SuccessBody true 1 0 /\
  ~ reports_present_count "abc123" partial_batch partial_world.
Proof.
  repeat split.
  intros [id H]. vm_compute in H. discriminate.
Qed.

End IngestFacts.

(** ** Properties of the traffic simulator *)
Module SimulatorFacts.
Import Simulator.

Lemma with_simulators_same w : with_simulators (simulators w) w = w.
Proof. destruct w; reflexivity. Qed.

(** *** Ticks of a removed entry *)

Lemma on_interval_absent sensor type w :
  simulators w !! sensor = None -> on_interval sensor type w = (tt, w).
Proof.
  intros H. unfold on_interval, bind, gets. rewrite H. reflexivity.
Qed.

Lemma stop_removes rendered sensor w :
  simulators (snd (stopSimulator rendered sensor w)) !! sensor = None.
Proof.
  unfold stopSimulator, bind, setSimulators, modify.
  destruct (rendered !! sensor ≫= _) as [h|]; simpl; apply lookup_delete_eq.
Qed.

(** C7. A tick of a sensor whose entry is no longer in the map does nothing:
    the callback looks the entry up, finds none, and returns the map it was
    given; no value is generated, nothing is sent, no entry is put back.  In
    particular after [stopSimulator], whether or not the stop cleared the
    interval, a tick of that sensor leaves the world as the stop left it. *)
Theorem tick_of_removed_entry_is_noop :
  (forall w h sensor type,
     intervals w !! h = Some (sensor, type) ->
     simulators w !! sensor = None ->
     fire h w = (tt, w)) /\
  (forall rendered w h sensor type,
     intervals w !! h = Some (sensor, type) ->
     let stopped := snd (stopSimulator rendered sensor w) in
     fire h stopped = (tt, stopped) /\
     simulators stopped !! sensor = None /\
     outbox stopped = outbox w).
Proof.
  split.
  - intros w h sensor type Hh Hnone. unfold fire. rewrite Hh.
    apply on_interval_absent, Hnone.
  - intros rendered w h sensor type Hh stopped.
    pose proof (stop_removes rendered sensor w) as Hgone. fold stopped in Hgone.
    split; [|split; [exact Hgone|]].
    + unfold fire. destruct (intervals stopped !! h) as [[s t]|] eqn:Hs; [|reflexivity].
      assert (s = sensor) as ->.
      { subst stopped. unfold stopSimulator, bind, setSimulators, modify in Hs.
        destruct (rendered !! sensor ≫= _) as [h'|]; simpl in Hs.
        - apply lookup_delete_Some in Hs. destruct Hs as [_ Hs]. congruence.
        - congruence. }
      apply on_interval_absent, Hgone.
    + subst stopped. unfold stopSimulator, bind, setSimulators, modify.
      destruct (rendered !! sensor ≫= _) as [h'|]; reflexivity.
Qed.

Lemma tick_of_removed_entry_is_noop_witness :
  let w := world humidity_session in
  let stopped := snd (stopSimulator ∅ "s1" w) in
  intervals w !! 1 = Some ("s1", "humidity") /\
  fire 1 stopped = (tt, stopped).
Proof.
  split; [reflexivity|].
  apply (proj2 tick_of_removed_entry_is_noop ∅ (world humidity_session) 1
           "s1" "humidity" eq_refl).
Defined.

(** *** What each operation touches *)

Lemma Math_random_fields w :
  let w' := snd (Math_random w) in
  simulators w' = simulators w /\ intervals w' = intervals w /\
  next_handle w' = next_handle w /\ outbox w' = outbox w /\
  random w' = random w /\ now w' = now w.
Proof. simpl. repeat split. Qed.

Lemma baseline_fields type w :
  let w' := snd (baseline type w) in
  simulators w' = simulators w /\ intervals w' = intervals w /\
  next_handle w' = next_handle w /\ outbox w' = outbox w /\
  random w' = random w /\ now w' = now w.
Proof.
  unfold baseline.
  repeat (destruct (String.eqb _ _); [simpl; repeat split|]).
  simpl. repeat split.
Qed.

Lemma generateValue_fields type prev w :
  let w' := snd (generateValue type prev w) in
  simulators w' = simulators w /\ intervals w' = intervals w /\
  next_handle w' = next_handle w /\ outbox w' = outbox w /\
  random w' = random w /\ now w' = now w.
Proof.
  unfold generateValue, bind. destruct prev as [p|].
  - simpl. repeat split.
  - pose proof (baseline_fields type w) as H.
    destruct (baseline type w) as [b w1]. simpl in *. exact H.
Qed.

(** The world after a start that goes through. *)
Lemma startSimulator_fresh rendered device sensor name type unit' w :
  ctx_isRunning rendered sensor = false ->
  let v := fst (generateValue type None w) in
  let w' := snd (startSimulator rendered device sensor name type unit' w) in
  simulators w' =
    <[sensor := {| deviceId := device; sensorId := sensor; sensorName := name;
                   sensorType := type; sensorUnit := unit'; isRunning := true;
                   intervalId := Some (next_handle w); currentValue := v |}]>
      (simulators w) /\
  intervals w' = <[next_handle w := (sensor, type)]> (intervals w) /\
  next_handle w' = S (next_handle w) /\
  outbox w' = outbox w ++ [sent sensor (now w) v] /\
  random w' = random w /\ now w' = now w.
Proof.
  intros Hnot. unfold startSimulator. rewrite Hnot. unfold bind.
  pose proof (generateValue_fields type None w) as H.
  destruct (generateValue type None w) as [v0 w1]. simpl in *.
  destruct H as (H1 & H2 & H3 & H4 & H5 & H6).
  rewrite ?H1, ?H2, ?H3, ?H4, ?H5, ?H6. repeat split.
Qed.

Lemma startSimulator_running rendered device sensor name type unit' w :
  ctx_isRunning rendered sensor = true ->
  startSimulator rendered device sensor name type unit' w = (tt, w).
Proof. intros H. unfold startSimulator. rewrite H. reflexivity. Qed.

(** The world after a tick that finds its entry. *)
Lemma on_interval_present sensor type current w :
  simulators w !! sensor = Some current ->
  let v := fst (generateValue type (Some (currentValue current)) w) in
  let w' := snd (on_interval sensor type w) in
  simulators w' =
    <[sensor := {| deviceId := deviceId current; sensorId := sensorId current;
                   sensorName := sensorName current; sensorType := sensorType current;
                   sensorUnit := sensorUnit current; isRunning := isRunning current;
                   intervalId := intervalId current; currentValue := v |}]>
      (simulators w) /\
  intervals w' = intervals w /\
  next_handle w' = next_handle w /\
  outbox w' = outbox w ++ [sent sensor (now w) v] /\
  random w' = random w /\ now w' = now w.
Proof.
  intros Hcur. unfold on_interval, bind, gets. rewrite Hcur.
  pose proof (generateValue_fields type (Some (currentValue current)) w) as H.
  destruct (generateValue type (Some (currentValue current)) w) as [v0 w1].
  simpl in *. destruct H as (H1 & H2 & H3 & H4 & H5 & H6).
  rewrite ?H1, ?H2, ?H3, ?H4, ?H5, ?H6. repeat split.
Qed.

Lemma stopSimulator_fields rendered sensor w :
  let w' := snd (stopSimulator rendered sensor w) in
  simulators w' = delete sensor (simulators w) /\
  intervals w' =
    match rendered !! sensor ≫= (fun sim => armed (intervalId sim)) with
    | Some h => delete h (intervals w)
    | None => intervals w
    end /\
  next_handle w' = next_handle w /\ outbox w' = outbox w /\
  random w' = random w /\ now w' = now w.
Proof.
  unfold stopSimulator, bind, setSimulators, modify.
  destruct (rendered !! sensor ≫= _) as [h|]; simpl; repeat split.
Qed.

Lemma stopSimulator_stopped rendered sensor w :
  rendered !! sensor = None ->
  simulators w !! sensor = None ->
  stopSimulator rendered sensor w = (tt, w).
Proof.
  intros Hr Hs. unfold stopSimulator, bind, setSimulators, modify.
  rewrite Hr. simpl. rewrite (delete_id _ _ Hs), with_simulators_same. reflexivity.
Qed.

(** *** One interval per sensor *)

Lemma consistent_not_running w sensor :
  consistent w -> ctx_isRunning (simulators w) sensor = false ->
  simulators w !! sensor = None.
Proof.
  intros (_ & Hrun & _) H. unfold ctx_isRunning in H.
  destruct (simulators w !! sensor) as [sim|] eqn:E; [|reflexivity].
  destruct (Hrun _ _ E) as [Hr _]. congruence.
Qed.

Lemma consistent_mount rnd time : consistent (world (mount rnd time)).
Proof.
  unfold consistent. simpl. split; [|split; [|split]].
  - intros h sensor type H. rewrite lookup_empty in H. discriminate.
  - intros sensor sim H. rewrite lookup_empty in H. discriminate.
  - intros h [x H]. rewrite lookup_empty in H. discriminate.
  - lia.
Qed.

Lemma consistent_start w device sensor name type unit' :
  consistent w ->
  consistent (snd (startSimulator (simulators w) device sensor name type unit' w)).
Proof.
  intros Hc. pose proof Hc as (Harm & Hrun & Hlt & Hpos).
  destruct (ctx_isRunning (simulators w) sensor) eqn:Hr.
  { rewrite (startSimulator_running _ _ _ _ _ _ _ Hr). exact Hc. }
  pose proof (consistent_not_running _ _ Hc Hr) as Hnone.
  destruct (startSimulator_fresh (simulators w) device sensor name type unit' w Hr)
    as (Hs & Hi & Hn & _).
  unfold consistent. rewrite Hs, Hi, Hn. split; [|split; [|split]].
  - intros h s t H.
    apply lookup_insert_Some in H. destruct H as [[<- [= <- <-]] | [Hne H]].
    + eexists. rewrite lookup_insert_eq. split; reflexivity.
    + destruct (Harm _ _ _ H) as (sim & Hsim & Hid).
      exists sim. split; [|exact Hid].
      rewrite lookup_insert_ne; [exact Hsim|]. intros ->. congruence.
  - intros s sim H. apply lookup_insert_Some in H.
    destruct H as [[_ <-] | [_ H]]; [|apply (Hrun _ _ H)].
    simpl. split; [reflexivity|].
    destruct (next_handle w) as [|n]; [lia | eauto].
  - intros h H. apply lookup_insert_is_Some in H.
    destruct H as [<- | [_ H]]; [lia | specialize (Hlt _ H); lia].
  - lia.
Qed.

Lemma consistent_stop w sensor :
  consistent w -> consistent (snd (stopSimulator (simulators w) sensor w)).
Proof.
  intros Hc. pose proof Hc as (Harm & Hrun & Hlt & Hpos).
  destruct (stopSimulator_fields (simulators w) sensor w) as (Hs & Hi & Hn & _).
  unfold consistent. rewrite Hs, Hn.
  assert (Hkept : forall h s t,
            intervals (snd (stopSimulator (simulators w) sensor w)) !! h = Some (s, t) ->
            intervals w !! h = Some (s, t) /\ s <> sensor).
  { intros h s t. rewrite Hi.
    destruct (simulators w !! sensor) as [sim|] eqn:Hsim; simpl.
    - destruct (Hrun _ _ Hsim) as [_ [h0 Hid]]. rewrite Hid. simpl.
      intros H. apply lookup_delete_Some in H. destruct H as [Hne H].
      split; [exact H|]. intros ->.
      destruct (Harm _ _ _ H) as (sim' & Hsim' & Hid'). congruence.
    - intros H. split; [exact H|]. intros ->.
      destruct (Harm _ _ _ H) as (sim' & Hsim' & _). congruence. }
  split; [|split; [|split]].
  - intros h s t H. destruct (Hkept _ _ _ H) as [H' Hne].
    destruct (Harm _ _ _ H') as (sim & Hsim & Hid).
    exists sim. split; [|exact Hid]. rewrite lookup_delete_ne; auto.
  - intros s sim H. apply lookup_delete_Some in H. destruct H as [_ H].
    apply (Hrun _ _ H).
  - intros h [[s t] H]. destruct (Hkept _ _ _ H) as [H' _].
    apply Hlt. eauto.
  - exact Hpos.
Qed.

Lemma consistent_fire w h : consistent w -> consistent (snd (fire h w)).
Proof.
  intros Hc. pose proof Hc as (Harm & Hrun & Hlt & Hpos).
  unfold fire. destruct (intervals w !! h) as [[sensor type]|] eqn:Hh; [|exact Hc].
  destruct (Harm _ _ _ Hh) as (current & Hcur & Hid).
  destruct (on_interval_present sensor type current w Hcur) as (Hs & Hi & Hn & _).
  unfold consistent. rewrite Hs, Hi, Hn. split; [|split; [|split]].
  - intros h' s t H. destruct (Harm _ _ _ H) as (sim & Hsim & Hid').
    destruct (decide (s = sensor)) as [-> | Hne].
    + eexists. rewrite lookup_insert_eq. split; [reflexivity|]. simpl. congruence.
    + exists sim. rewrite lookup_insert_ne; auto.
  - intros s sim H. apply lookup_insert_Some in H.
    destruct H as [[_ <-] | [_ H]]; [|apply (Hrun _ _ H)].
    simpl. apply (Hrun _ _ Hcur).
  - exact Hlt.
  - exact Hpos.
Qed.

Lemma consistent_step w a : consistent w -> consistent (step w a).
Proof.
  intros Hc. destruct a as [device sensor name type unit' | sensor | h | ms]; simpl.
  - apply consistent_start, Hc.
  - apply consistent_stop, Hc.
  - apply consistent_fire, Hc.
  - exact Hc.
Qed.

Lemma consistent_run acts : forall w, consistent w -> consistent (run acts w).
Proof.
  unfold run. induction acts as [|a acts IH]; intros w Hc; simpl; [exact Hc|].
  apply IH, consistent_step, Hc.
Qed.

Lemma one_interval_per_sensor w h1 h2 sensor t1 t2 :
  consistent w ->
  intervals w !! h1 = Some (sensor, t1) ->
  intervals w !! h2 = Some (sensor, t2) ->
  h1 = h2.
Proof.
  intros (Harm & _) H1 H2.
  destruct (Harm _ _ _ H1) as (sim1 & Hs1 & Hi1).
  destruct (Harm _ _ _ H2) as (sim2 & Hs2 & Hi2).
  congruence.
Qed.

(** What the guards do achieve.  A start through a closure whose map shows
    the sensor running changes nothing: the map entry stays, no value is
    generated or sent and no interval is armed.  A stop of a sensor that has
    no entry changes nothing either, and both operations are total (there is
    nothing for them to throw on).  In a session whose every call goes
    through the closures of the latest render, a sensor never has two armed
    intervals. *)
Theorem start_and_stop_are_idempotent :
  (forall rendered w device sensor name type unit' sim,
     rendered !! sensor = Some sim -> isRunning sim = true ->
     startSimulator rendered device sensor name type unit' w = (tt, w)) /\
  (forall rendered w sensor,
     rendered !! sensor = None -> simulators w !! sensor = None ->
     stopSimulator rendered sensor w = (tt, w)) /\
  (forall rnd time acts h1 h2 sensor t1 t2,
     let w := run acts (world (mount rnd time)) in
     intervals w !! h1 = Some (sensor, t1) ->
     intervals w !! h2 = Some (sensor, t2) ->
     h1 = h2).
Proof.
  split; [|split].
  - intros rendered w device sensor name type unit' sim Hsim Hrun.
    apply startSimulator_running. unfold ctx_isRunning. rewrite Hsim. exact Hrun.
  - intros rendered w sensor. apply stopSimulator_stopped.
  - intros rnd time acts h1 h2 sensor t1 t2 w.
    apply one_interval_per_sensor, consistent_run, consistent_mount.
Qed.

Lemma start_and_stop_are_idempotent_witness :
  let w := world humidity_session in
  startSimulator (simulators w) "d1" "s1" "Humidity" "humidity" "%" w = (tt, w) /\
  stopSimulator (simulators w) "s2" w = (tt, w).
Proof.
  split.
  - eapply (proj1 start_and_stop_are_idempotent); reflexivity.
  - apply (proj1 (proj2 start_and_stop_are_idempotent)); reflexivity.
Defined.

(** C6, on the code.  The guard of [startSimulator] reads the map of the
    render its closure was made in, not the state of the provider.  For a
    sensor that is Running, with its interval armed, a start through a
    closure whose map does not show it is no no-op: the interval already
    armed stays armed, a second one is armed for the same sensor, the entry
    now records the second handle only, and one more reading is sent. *)
Theorem start_of_running_sensor_arms_second_interval :
  forall rendered device sensor name type unit' w h t,
    ctx_isRunning (simulators w) sensor = true ->
    intervals w !! h = Some (sensor, t) ->
    h < next_handle w ->
    ctx_isRunning rendered sensor = false ->
    let w' := snd (startSimulator rendered device sensor name type unit' w) in
    intervals w' !! h = Some (sensor, t) /\
    intervals w' !! next_handle w = Some (sensor, type) /\
    h <> next_handle w /\
    intervalId <$> simulators w' !! sensor = Some (Some (next_handle w)) /\
    length (outbox w') = S (length (outbox w)).
Proof.
  intros rendered device sensor name type unit' w h t _ Harmed Hlt Hstale w'.
  destruct (startSimulator_fresh rendered device sensor name type unit' w Hstale)
    as (Hs & Hi & _ & Ho & _).
  fold w' in Hs, Hi, Ho. rewrite Hs, Hi, Ho.
  assert (Hne : h <> next_handle w) by lia.
  split; [rewrite lookup_insert_ne; auto|].
  split; [apply lookup_insert_eq|].
  split; [exact Hne|].
  split; [rewrite lookup_insert_eq; reflexivity|].
  rewrite length_app. simpl. lia.
Qed.

Lemma start_of_running_sensor_arms_second_interval_witness :
  let w := world humidity_session in
  let w' := snd (startSimulator (first_render humidity_session)
                   "d1" "s1" "Humidity" "humidity" "%" w) in
  ctx_isRunning (simulators w) "s1" = true /\
  intervals w' !! 1 = Some ("s1", "humidity") /\
  intervals w' !! 2 = Some ("s1", "humidity") /\
  intervalId <$> simulators w' !! "s1" = Some (Some 2) /\
  length (outbox w') = 2.
Proof.
  intros w w'.
  destruct (start_of_running_sensor_arms_second_interval
              (first_render humidity_session) "d1" "s1" "Humidity" "humidity" "%"
              w 1 "humidity") as (H1 & H2 & _ & H3 & H4).
  - reflexivity.
  - reflexivity.
  - apply Nat.ltb_lt. reflexivity.
  - reflexivity.
  - split; [reflexivity|]. split; [exact H1|]. split; [exact H2|].
    split; [exact H3 | exact H4].
Defined.

(** *** Teardown *)

Lemma cleanup_of_session rnd time acts :
  cleanup (session acts (mount rnd time)) = world (session acts (mount rnd time)).
Proof. unfold cleanup. simpl. apply map_fold_empty. Qed.

(** C4, on the code.  The cleanup of the mount effect walks the map of the
    first render, which is empty, so unmounting leaves every interval of the
    session armed: after a start of sensor [s1] and the unmount, the map
    entry of [s1] still names interval 1 and interval 1 is still armed. *)
Theorem unmount_leaves_intervals_armed :
  (forall rnd time acts,
     world (unmount (session acts (mount rnd time))) =
     world (session acts (mount rnd time))) /\
  intervalId <$> simulators (world humidity_session) !! "s1" = Some (Some 1) /\
  intervals (world (unmount humidity_session)) !! 1 = Some ("s1", "humidity").
Proof.
  split; [|split].
  - intros rnd time acts. simpl. apply cleanup_of_session.
  - reflexivity.
  - unfold humidity_session. simpl. rewrite cleanup_of_session. reflexivity.
Qed.

(** *** Where readings go *)

Lemma direct_step w a :
  Forall direct_insert (outbox w) -> Forall direct_insert (outbox (step w a)).
Proof.
  intros H. destruct a as [device sensor name type unit' | sensor | h | ms]; simpl.
  - destruct (ctx_isRunning (simulators w) sensor) eqn:Hr.
    + rewrite (startSimulator_running _ _ _ _ _ _ _ Hr). exact H.
    + destruct (startSimulator_fresh (simulators w) device sensor name type unit' w Hr)
        as (_ & _ & _ & Ho & _).
      rewrite Ho. apply Forall_app. split; [exact H|].
      constructor; [reflexivity | constructor].
  - destruct (stopSimulator_fields (simulators w) sensor w) as (_ & _ & _ & Ho & _).
    rewrite Ho. exact H.
  - unfold fire. destruct (intervals w !! h) as [[sensor type]|]; [|exact H].
    destruct (simulators w !! sensor) as [current|] eqn:Hcur.
    + destruct (on_interval_present sensor type current w Hcur)
        as (_ & _ & _ & Ho & _).
      rewrite Ho. apply Forall_app. split; [exact H|].
      constructor; [reflexivity | constructor].
    + rewrite (on_interval_absent _ _ _ Hcur). exact H.
  - exact H.
Qed.

Lemma direct_run acts : forall w,
  Forall direct_insert (outbox w) -> Forall direct_insert (outbox (run acts w)).
Proof.
  unfold run. induction acts as [|a acts IH]; intros w H; simpl; [exact H|].
  apply IH, direct_step, H.
Qed.

(** C3, as the code has it.  Every reading the simulator produces is written
    by [sendReading] straight into the [readings] table through the store
    client: a start that goes through sends the initial value it records, a
    tick that finds its entry sends the value it records, each exactly once,
    and nothing in any session is sent any other way. *)
Theorem readings_are_inserted_directly :
  (forall rnd time acts,
     Forall direct_insert (outbox (run acts (world (mount rnd time))))) /\
  (forall rendered device sensor name type unit' w,
     ctx_isRunning rendered sensor = false ->
     let w' := snd (startSimulator rendered device sensor name type unit' w) in
     exists v,
       currentValue <$> simulators w' !! sensor = Some v /\
       outbox w' = outbox w ++ [TableInsert "readings" sensor v (now w)]) /\
  (forall h sensor type current w,
     intervals w !! h = Some (sensor, type) ->
     simulators w !! sensor = Some current ->
     let w' := snd (fire h w) in
     exists v,
       currentValue <$> simulators w' !! sensor = Some v /\
       outbox w' = outbox w ++ [TableInsert "readings" sensor v (now w)]).
Proof.
  split; [|split].
  - intros rnd time acts. apply direct_run. constructor.
  - intros rendered device sensor name type unit' w Hr w'.
    destruct (startSimulator_fresh rendered device sensor name type unit' w Hr)
      as (Hs & _ & _ & Ho & _).
    fold w' in Hs, Ho. eexists. rewrite Hs, Ho, lookup_insert_eq.
    split; reflexivity.
  - intros h sensor type current w Hh Hcur w'.
    subst w'. unfold fire. rewrite Hh.
    destruct (on_interval_present sensor type current w Hcur)
      as (Hs & _ & _ & Ho & _).
    eexists. rewrite Hs, Ho, lookup_insert_eq. split; reflexivity.
Qed.

Lemma readings_are_inserted_directly_witness :
  exists v,
    currentValue <$> simulators (world humidity_session) !! "s1" = Some v /\
    outbox (world humidity_session) = [TableInsert "readings" "s1" v 0].
Proof.
  apply (proj1 (proj2 readings_are_inserted_directly) ∅ "d1" "s1" "Humidity"
           "humidity" "%" (world (mount constant_half 0))).
  reflexivity.
Defined.

(** C3, as the specification words it, fails: the reading sent on start does
    not go through the ingestion endpoint. *)
Lemma initial_reading_bypasses_ingestion :
  (exists v, outbox (world humidity_session) = [TableInsert "readings" "s1" v 0] /\
             (v == 60 # 1)%Q) /\
  ~ Forall through_ingestion (outbox (world humidity_session)).
Proof.
  assert (H : outbox (world humidity_session) =
              [TableInsert "readings" "s1" (480 # 8)%Q 0]).
  { vm_compute. reflexivity. }
  split.
  - eexists. split; [exact H | reflexivity].
  - rewrite H. intros Hall. apply Forall_inv in Hall. exact Hall.
Qed.

(** *** Generated values *)

Lemma generateValue_next type p w :
  fst (generateValue type (Some p) w) =
  Qmax 0 (p + (random w (draws w) - (1 # 2)) * 2).
Proof. reflexivity. Qed.

Lemma generateValue_nonneg type prev w :
  (0 <= fst (generateValue type prev w))%Q.
Proof.
  unfold generateValue, bind.
  destruct (match prev with Some p => ret p | None => baseline type end w) as [b w1].
  simpl. apply Q.le_max_l.
Qed.

Lemma perturbation_bound p r :
  (0 <= p)%Q -> (0 <= r < 1)%Q ->
  (Qabs (Qmax 0 (p + (r - (1 # 2)) * 2) - p) <= 1)%Q.
Proof.
  intros Hp [Hr0 Hr1]. apply Qabs_Qle_condition.
  destruct (Q.max_spec 0 (p + (r - (1 # 2)) * 2)) as [[Hlt E] | [Hle E]];
    rewrite E; split; lra.
Qed.

Lemma smooth_snoc vs a b :
  smooth (vs ++ [a]) -> (Qabs (b - a) <= 1)%Q -> smooth ((vs ++ [a]) ++ [b]).
Proof.
  intros Hs Hab. induction vs as [|x vs IH]; simpl in *.
  - split; [exact Hab | exact I].
  - destruct (vs ++ [a]) as [|y rest] eqn:E.
    + destruct vs; discriminate.
    + simpl. destruct Hs as [Hxy Hrest]. split; [exact Hxy | apply IH, Hrest].
Qed.

Lemma run_snoc acts a w : run (acts ++ [a]) w = step (run acts w) a.
Proof. unfold run. rewrite fold_left_app. reflexivity. Qed.

(** One start followed by [k] ticks of the interval it armed. *)
Lemma start_then_ticks w0 device sensor name type unit' k :
  (forall n, (0 <= random w0 n < 1)%Q) ->
  ctx_isRunning (simulators w0) sensor = false ->
  let w := run (Start device sensor name type unit' ::
                repeat (Fire (next_handle w0)) k) w0 in
  exists vs last current,
    outbox w = outbox w0 ++ map (sent sensor (now w0)) (vs ++ [last]) /\
    length vs = k /\
    Forall (fun v => (0 <= v)%Q) (vs ++ [last]) /\
    smooth (vs ++ [last]) /\
    simulators w !! sensor = Some current /\ currentValue current = last /\
    intervals w !! next_handle w0 = Some (sensor, type) /\
    random w = random w0 /\ now w = now w0.
Proof.
  intros Hrnd Hnot. induction k as [|k IH].
  - simpl. unfold run. simpl.
    destruct (startSimulator_fresh (simulators w0) device sensor name type unit' w0 Hnot)
      as (Hs & Hi & _ & Ho & Hr & Hn).
    exists [], (fst (generateValue type None w0)). eexists.
    rewrite Hs, Hi, Ho, Hr, Hn, !lookup_insert_eq. simpl.
    repeat split.
    constructor; [apply generateValue_nonneg | constructor].
  - cbv zeta in *.
    replace (Start device sensor name type unit' :: repeat (Fire (next_handle w0)) (S k))
      with ((Start device sensor name type unit' :: repeat (Fire (next_handle w0)) k)
            ++ [Fire (next_handle w0)]).
    2:{ simpl. f_equal. symmetry. apply repeat_cons. }
    rewrite run_snoc.
    set (w := run (Start device sensor name type unit' ::
                   repeat (Fire (next_handle w0)) k) w0) in *.
    destruct IH as (vs & last & current & Ho & Hlen & Hpos & Hsm & Hcur & Hval & Hh & Hr & Hn).
    simpl. unfold fire. rewrite Hh.
    destruct (on_interval_present sensor type current w Hcur)
      as (Hs' & Hi' & _ & Ho' & Hr' & Hn').
    exists (vs ++ [last]), (fst (generateValue type (Some (currentValue current)) w)).
    eexists. rewrite Hs', Hi', Ho', Hr', Hn', Ho, Hn, Hr, lookup_insert_eq.
    split; [rewrite (map_app _ (vs ++ [last])), app_assoc; reflexivity|].
    split; [rewrite length_app; simpl; lia|].
    split; [apply Forall_app; split;
            [exact Hpos | constructor; [apply generateValue_nonneg | constructor]]|].
    split; [|repeat split; exact Hh].
    apply smooth_snoc; [exact Hsm|].
    rewrite generateValue_next, Hval. apply perturbation_bound.
    + apply Forall_app in Hpos. destruct Hpos as [_ Hlast].
      apply Forall_inv in Hlast. exact Hlast.
    + rewrite Hr. apply Hrnd.
Qed.

(** C9. Every value [generateValue] returns is non-negative; a value
    generated by a tick is within one unit of the value it perturbs, when
    that value is non-negative and [Math.random()] is in [0, 1); and a start
    followed by [k] ticks sends [k + 1] values, each non-negative and each
    within one unit of the one before. *)
Theorem generated_values_nonnegative_and_smooth :
  (forall type prev w, (0 <= fst (generateValue type prev w))%Q) /\
  (forall type p w,
     (0 <= p)%Q -> (0 <= random w (draws w) < 1)%Q ->
     (Qabs (fst (generateValue type (Some p) w) - p) <= 1)%Q) /\
  (forall w0 device sensor name type unit' k,
     (forall n, (0 <= random w0 n < 1)%Q) ->
     ctx_isRunning (simulators w0) sensor = false ->
     exists vs,
       outbox (run (Start device sensor name type unit' ::
                    repeat (Fire (next_handle w0)) k) w0) =
         outbox w0 ++ map (sent sensor (now w0)) vs /\
       length vs = S k /\
       Forall (fun v => (0 <= v)%Q) vs /\
       smooth vs).
Proof.
  split; [|split].
  - apply generateValue_nonneg.
  - intros type p w Hp Hr. rewrite generateValue_next.
    apply perturbation_bound; assumption.
  - intros w0 device sensor name type unit' k Hrnd Hnot.
    destruct (start_then_ticks w0 device sensor name type unit' k Hrnd Hnot)
      as (vs & last & current & Ho & Hlen & Hpos & Hsm & _).
    exists (vs ++ [last]). split; [exact Ho|].
    split; [rewrite length_app; simpl; lia|]. split; assumption.
Qed.

Lemma generated_values_nonnegative_and_smooth_witness :
  exists vs,
    outbox (run (Start "d1" "s1" "Humidity" "humidity" "%" :: repeat (Fire 1) 3)
                (world (mount constant_half 0))) =
      map (sent "s1" 0) vs /\
    length vs = 4 /\
    Forall (fun v => (0 <= v)%Q) vs /\
    smooth vs.
Proof.
  apply (proj2 (proj2 generated_values_nonnegative_and_smooth)
           (world (mount constant_half 0)) "d1" "s1" "Humidity" "humidity" "%" 3).
  - intros n. unfold constant_half. simpl. split; [discriminate | reflexivity].
  - reflexivity.
Defined.

End SimulatorFacts.

(** ** Further properties of the ingestion endpoint *)
Module IngestInvariants.
Import Ingest IngestFacts.

(** *** The five ways a request is served *)

Lemma serve_cases req w :
  (method req = OPTIONS /\
   serve req w = ({| status := 200; headers := corsHeaders; body := NoBody |}, w)) \/
  (method req <> OPTIONS /\ method req <> POST /\
   serve req w = (respond 405 (ErrorBody "Method not allowed" None), w)) \/
  (method req = POST /\ exists message, json req = inl message /\
   serve req w =
     (respond 500 (ErrorBody "Internal server error" (Some message)),
      logged (ConsoleError "Ingest error:") w)) \/
  (method req = POST /\ exists payload, json req = inr payload /\
   (truthy (device_key payload) = false \/ readings_of payload = None) /\
   serve req w = (invalid_payload, w)) \/
  (method req = POST /\ exists key batch,
   json req = inr {| device_key := Some key; readings_of := Some batch |} /\
   key <> "" /\ serve req w = serve (post key batch) w).
Proof.
  destruct req as [m j]. simpl.
  destruct m; try (right; left; repeat split; discriminate).
  - left. split; reflexivity.
  - right; right. destruct j as [message | [[key|] [batch|]]].
    + left. split; [reflexivity|]. exists message. split; reflexivity.
    + destruct (String.eqb key "") eqn:Hk.
      * right; left. split; [reflexivity|]. eexists. split; [reflexivity|].
        split; [left; simpl; rewrite Hk; reflexivity|].
        unfold serve, try_block, bind. simpl. rewrite Hk. reflexivity.
      * right; right. split; [reflexivity|]. exists key, batch.
        split; [reflexivity|]. split; [|reflexivity].
        apply String.eqb_neq, Hk.
    + right; left. split; [reflexivity|]. eexists. split; [reflexivity|].
      split; [right; reflexivity|].
      unfold serve, try_block, bind. simpl. rewrite orb_true_r. reflexivity.
    + right; left. split; [reflexivity|]. eexists. split; [reflexivity|].
      split; [left; reflexivity|]. reflexivity.
    + right; left. split; [reflexivity|]. eexists. split; [reflexivity|].
      split; [left; reflexivity|]. reflexivity.
Qed.

Lemma serve_post_cases key batch w :
  key <> "" ->
  (exists w1, select_device key w = (inr None, w1) /\
     serve (post key batch) w = (invalid_device_key, w1)) \/
  (exists e w1, select_device key w = (inl e, w1) /\
     serve (post key batch) w = (invalid_device_key, w1)) \/
  (exists device w1, select_device key w = (inr (Some device), w1) /\
     serve (post key batch) w =
       (respond 200 (SuccessBody true (dev_id device)
                       (length (fst (process_readings device [] batch w1)))),
        snd (process_readings device [] batch w1))).
Proof.
  intros Hkey. rewrite (serve_post _ _ _ Hkey).
  destruct (select_device key w) as [[e | [device |]] w1].
  - right; left. eauto.
  - right; right. eauto.
  - left. eauto.
Qed.

(** *** Headers and status codes *)

(** X1. Every response carries the three CORS headers, and every response
    other than the preflight answer is labelled as JSON. *)
Theorem cors_on_every_response :
  forall req w,
    incl corsHeaders (headers (fst (serve req w))) /\
    (method req <> OPTIONS ->
     In ("Content-Type", "application/json") (headers (fst (serve req w)))).
Proof.
  intros req w.
  assert (Hjson : incl corsHeaders jsonHeaders /\
                  In ("Content-Type", "application/json") jsonHeaders).
  { split; [apply incl_appl, incl_refl | apply in_or_app; right; left; reflexivity]. }
  destruct (serve_cases req w)
    as [[Hm ->] | [(Hm & _ & ->) | [(Hm & m & _ & ->) | [(Hm & p & _ & _ & ->)
       | (Hm & key & batch & _ & Hkey & ->)]]]]; simpl.
  - split; [apply incl_refl | congruence].
  - split; [apply Hjson | intros _; apply Hjson].
  - split; [apply Hjson | intros _; apply Hjson].
  - split; [apply Hjson | intros _; apply Hjson].
  - destruct (serve_post_cases key batch w Hkey)
      as [(w1 & _ & ->) | [(e & w1 & _ & ->) | (d & w1 & _ & ->)]]; simpl;
      (split; [apply Hjson | intros _; apply Hjson]).
Qed.

(** *** Bodies outside the declared shape *)

Lemma process_json_readings_declared device rs : forall inserted w,
  process_json_readings device inserted (map Some rs) w =
  (inr (fst (process_readings device inserted rs w)),
   snd (process_readings device inserted rs w)).
Proof.
  induction rs as [|r rs IH]; intros inserted w; [reflexivity|].
  cbn [map process_json_readings process_readings]. unfold bind.
  destruct (process_reading device inserted r w) as [ins w1]. apply IH.
Qed.

(** On a request of the declared shape the two handlers are one. *)
Lemma serve_json_declared req w : serve_json (declared req) w = serve req w.
Proof.
  destruct req as [m j]. unfold serve_json, serve, declared. simpl.
  destruct m; try reflexivity.
  unfold try_block_json, try_block, bind. simpl.
  destruct j as [message | [[key|] [batch|]]]; try reflexivity. simpl.
  destruct (negb (String.eqb key "")); [|reflexivity]. simpl.
  destruct (select_device key w) as [[e | [d |]] w1]; try reflexivity.
  rewrite process_json_readings_declared.
  destruct (process_readings d [] batch w1) as [ins w2]. reflexivity.
Qed.

(** The loop throws at the first [null] element, having worked on the
    elements before it. *)
Lemma process_json_readings_null device before rest : forall inserted w,
  process_json_readings device inserted (map Some before ++ None :: rest) w =
  (inl null_reading, snd (process_readings device inserted before w)).
Proof.
  induction before as [|r before IH]; intros inserted w; [reflexivity|].
  cbn [map app process_json_readings process_readings]. unfold bind.
  destruct (process_reading device inserted r w) as [ins w1]. apply IH.
Qed.

Lemma process_json_readings_throws device rs : forall inserted w,
  (exists message, fst (process_json_readings device inserted rs w) = inl message)
  <-> In None rs.
Proof.
  induction rs as [|[r|] rs IH]; intros inserted w.
  - simpl. split; [intros [m H]; discriminate | intros []].
  - cbn [process_json_readings]. unfold bind.
    destruct (process_reading device inserted r w) as [ins w1].
    rewrite IH. simpl. split; [auto | intros [H | H]; [discriminate | exact H]].
  - simpl. split; [auto | intros _; eexists; reflexivity].
Qed.

Lemma serve_json_post key batch w :
  key <> "" ->
  serve_json (json_post key batch) w =
  match select_device key w with
  | (inr (Some device), w1) =>
      match process_json_readings device [] batch w1 with
      | (inr inserted, w2) =>
          (respond 200 (SuccessBody true (dev_id device) (length inserted)), w2)
      | (inl message, w2) =>
          (respond 500 (ErrorBody "Internal server error" (Some message)),
           logged (ConsoleError "Ingest error:") w2)
      end
  | (_, w1) => (invalid_device_key, w1)
  end.
Proof.
  intros Hkey. unfold serve_json, try_block_json, json_post, bind. simpl.
  rewrite (nonempty_eqb _ Hkey). simpl.
  destruct (select_device key w) as [[e | [d |]] w1]; try reflexivity.
  destruct (process_json_readings d [] batch w1) as [[m | ins] w2]; reflexivity.
Qed.

Lemma serve_json_cases req w :
  (json_method req = OPTIONS /\
   serve_json req w = ({| status := 200; headers := corsHeaders; body := NoBody |}, w)) \/
  (json_method req <> OPTIONS /\ json_method req <> POST /\
   serve_json req w = (respond 405 (ErrorBody "Method not allowed" None), w)) \/
  (json_method req = POST /\
   ((exists message, json_body req = inl message) \/ json_body req = inr None) /\
   exists message,
     serve_json req w =
       (respond 500 (ErrorBody "Internal server error" (Some message)),
        logged (ConsoleError "Ingest error:") w)) \/
  (json_method req = POST /\ exists payload, json_body req = inr (Some payload) /\
   (truthy (json_device_key payload) = false \/ json_readings payload = None) /\
   serve_json req w = (invalid_payload, w)) \/
  (json_method req = POST /\ exists key batch,
   json_body req = inr (Some {| json_device_key := Some key;
                                json_readings := Some batch |}) /\
   key <> "" /\ serve_json req w = serve_json (json_post key batch) w).
Proof.
  destruct req as [m j]. simpl.
  destruct m; try (right; left; repeat split; discriminate).
  - left. split; reflexivity.
  - right; right. destruct j as [message | [[[key|] [batch|]] |]].
    + left. split; [reflexivity|]. split; [left; eauto|]. eexists. reflexivity.
    + destruct (String.eqb key "") eqn:Hk.
      * right; left. split; [reflexivity|]. eexists. split; [reflexivity|].
        split; [left; simpl; rewrite Hk; reflexivity|].
        unfold serve_json, try_block_json, bind. simpl. rewrite Hk. reflexivity.
      * right; right. split; [reflexivity|]. exists key, batch.
        split; [reflexivity|]. split; [|reflexivity].
        apply String.eqb_neq, Hk.
    + right; left. split; [reflexivity|]. eexists. split; [reflexivity|].
      split; [right; reflexivity|].
      unfold serve_json, try_block_json, bind. simpl. rewrite orb_true_r. reflexivity.
    + right; left. split; [reflexivity|]. eexists. split; [reflexivity|].
      split; [left; reflexivity|]. reflexivity.
    + right; left. split; [reflexivity|]. eexists. split; [reflexivity|].
      split; [left; reflexivity|]. reflexivity.
    + left. split; [reflexivity|]. split; [right; reflexivity|].
      eexists. reflexivity.
Qed.

(** What a POST with a non-empty key and an array comes to, by what the
    lookup of the device and the loop do. *)
Lemma serve_json_post_cases key batch w :
  key <> "" ->
  (status (fst (serve_json (json_post key batch) w)) = 401 /\
   forall device, fst (select_device key w) <> inr (Some device)) \/
  (exists device,
     fst (select_device key w) = inr (Some device) /\
     ((status (fst (serve_json (json_post key batch) w)) = 200 /\ ~ In None batch) \/
      (status (fst (serve_json (json_post key batch) w)) = 500 /\ In None batch))).
Proof.
  intros Hkey. rewrite (serve_json_post _ _ _ Hkey).
  destruct (select_device key w) as [[e | [d |]] w1]; simpl.
  - left. split; [reflexivity | discriminate].
  - right. exists d. split; [reflexivity|].
    pose proof (process_json_readings_throws d batch [] w1) as Hthrow.
    destruct (process_json_readings d [] batch w1) as [[m | ins] w2]; simpl in *.
    + right. split; [reflexivity|]. apply Hthrow. eauto.
    + left. split; [reflexivity|]. intros Hin. apply Hthrow in Hin.
      destruct Hin as [m Hm]. discriminate.
  - left. split; [reflexivity | discriminate].
Qed.


(** X3. Over every JSON body.  A request answered 400 or 405, a preflight
    request, and a POST whose body does not parse or is [null] leave the
    store and the schedule of store calls as they were: nothing is looked up
    or written, and the only trace is the console line of the 500. *)
Theorem rejected_requests_touch_nothing :
  forall req w,
    let st := status (fst (serve_json req w)) in
    st = 400 \/ st = 405 \/ json_method req = OPTIONS \/
    (json_method req = POST /\
     ((exists message, json_body req = inl message) \/ json_body req = inr None)) ->
    store (snd (serve_json req w)) = store w /\
    schedule (snd (serve_json req w)) = schedule w /\
    (events (snd (serve_json req w)) = events w \/
     events (snd (serve_json req w)) = events w ++ [ConsoleError "Ingest error:"]).
Proof.
  intros req w st Hst. subst st.
  destruct (serve_json_cases req w)
    as [[Hm E] | [(Hm & Hm' & E) | [(Hm & Hj & m & E) | [(Hm & p & Hj & Hbad & E)
       | (Hm & key & batch & Hj & Hkey & E)]]]]; rewrite E in *; simpl in *; auto.
  exfalso.
  destruct Hst as [H | [H | [H | (_ & [[m H] | H])]]]; try congruence;
    destruct (serve_json_post_cases key batch w Hkey)
      as [[E' _] | (d & _ & [[E' _] | [E' _]])]; congruence.
Qed.

Lemma rejected_requests_touch_nothing_witness :
  store (snd (serve_json {| json_method := POST; json_body := inr None |}
                         (world_of one_device [outage]))) = one_device /\
  schedule (snd (serve_json {| json_method := POST; json_body := inr None |}
                            (world_of one_device [outage]))) = [outage].
Proof.
  destruct (rejected_requests_touch_nothing
              {| json_method := POST; json_body := inr None |}
              (world_of one_device [outage])) as (Hs & Hq & _).
  - right; right; right. split; [reflexivity | right; reflexivity].
  - split; [exact Hs | exact Hq].
Defined.

(** X21. A 500 can follow writes.  When [readings] holds a [null] element,
    the elements before it are worked on as in a request for them alone,
    and their rows stay: the store and the schedule end as that request
    would leave them.  Where that request is answered 200, this one is
    answered 500; where the key finds no device, both are answered 401. *)
Theorem null_element_fails_after_writes :
  forall key before rest w,
    key <> "" ->
    let req := json_post key (map Some before ++ None :: rest) in
    store (snd (serve_json req w)) = store (snd (serve (post key before) w)) /\
    schedule (snd (serve_json req w)) = schedule (snd (serve (post key before) w)) /\
    ((status (fst (serve (post key before) w)) = 200 /\
      status (fst (serve_json req w)) = 500) \/
     (status (fst (serve (post key before) w)) = 401 /\
      status (fst (serve_json req w)) = 401)).
Proof.
  intros key before rest w Hkey req. subst req.
  rewrite (serve_json_post _ _ _ Hkey), (serve_post _ _ _ Hkey).
  destruct (select_device key w) as [[e | [d |]] w1].
  - split; [reflexivity|]. split; [reflexivity|]. right. split; reflexivity.
  - rewrite process_json_readings_null. cbn [fst snd].
    split; [reflexivity|]. split; [reflexivity|]. left. split; reflexivity.
  - split; [reflexivity|]. split; [reflexivity|]. right. split; reflexivity.
Qed.

Lemma null_element_fails_after_writes_witness :
  map rd_timestamp
    (readings (store (snd (serve_json
       (json_post "abc123" [Some (entry "temp" (43 # 2)%Q); None;
                            Some (entry "hum" (40 # 1)%Q)]) slow_world)))) = [112] /\
  status (fst (serve_json
       (json_post "abc123" [Some (entry "temp" (43 # 2)%Q); None;
                            Some (entry "hum" (40 # 1)%Q)]) slow_world)) = 500.
Proof.
  destruct (null_element_fails_after_writes "abc123" [entry "temp" (43 # 2)%Q]
              [Some (entry "hum" (40 # 1)%Q)] slow_world) as (Hs & _ & H).
  - discriminate.
  - split.
    + cbn [map app] in Hs. rewrite Hs. reflexivity.
    + destruct H as [[_ H] | [H _]]; [|discriminate H].
      cbn [map app] in H. exact H.
Defined.

(** *** Properties of the store that every request keeps

    A property of the store that survives the two writes of the schema, a
    first-sighting sensor row for a new (device, name) pair and a reading row
    for an existing sensor, survives every request, whatever the other
    requests and the store do meanwhile. *)
Section Preservation.

Variable P : Store -> Prop.

Hypothesis P_sensor :
  forall d name ts s,
    P s -> existsb (sensor_is d name) (sensors s) = false ->
    P (fst (add_sensor d name name "" ts s)).

Hypothesis P_reading :
  forall sensor_id v ts s,
    P s -> existsb (fun x => Nat.eqb (sen_id x) sensor_id) (sensors s) = true ->
    P (add_reading (reading_row sensor_id v ts s) s).

Lemma rival_keeps n s r : P s -> P (rival_insert n s r).
Proof.
  intros H. unfold rival_insert.
  destruct (existsb _ _) eqn:E; [exact H | apply P_sensor; assumption].
Qed.

Lemma rivals_keep n rs : forall s, P s -> P (fold_left (rival_insert n) rs s).
Proof.
  induction rs as [|r rs IH]; intros s H; simpl; [exact H|].
  apply IH, rival_keeps, H.
Qed.

Lemma awaited_keeps w : P (store w) -> P (store (awaited w)).
Proof. intros H. simpl. apply rivals_keep, H. Qed.

Lemma select_device_keeps k w :
  P (store w) -> P (store (snd (select_device k w))).
Proof. intros H. rewrite select_device_eq. simpl. apply rivals_keep, H. Qed.

Lemma select_sensor_keeps d n w :
  P (store w) -> P (store (snd (select_sensor d n w))).
Proof. intros H. rewrite select_sensor_eq. simpl. apply rivals_keep, H. Qed.

Lemma insert_sensor_keeps d name w :
  P (store w) -> P (store (snd (insert_sensor d name name "" w))).
Proof.
  intros H. apply awaited_keeps in H. rewrite insert_sensor_eq. cbv zeta.
  destruct (fails (turn_of w)); [exact H|].
  destruct (negb _); [exact H|].
  destruct (existsb (sensor_is d name) _) eqn:E; [exact H|].
  simpl. apply (P_sensor d name (now (awaited w)) (store (awaited w)) H E).
Qed.

Lemma insert_reading_keeps sensor_id v ts w :
  P (store w) -> P (store (snd (insert_reading sensor_id v ts w))).
Proof.
  intros H. apply awaited_keeps in H. rewrite insert_reading_eq. cbv zeta.
  destruct (fails (turn_of w)); [exact H|].
  destruct (negb _) eqn:E; [exact H|].
  simpl. apply (P_reading sensor_id v ts (store (awaited w)) H).
  apply negb_false_iff, E.
Qed.

Ltac keep_reading H :=
  simpl;
  match goal with
  | |- context [insert_reading ?s ?v ?t ?w'] =>
      let Hk := fresh "Hk" in
      pose proof (insert_reading_keeps s v t w' H) as Hk;
      destruct (insert_reading s v t w') as [[? | ?] ?]; simpl in *; exact Hk
  end.

Lemma process_reading_keeps device inserted r w :
  P (store w) -> P (store (snd (process_reading device inserted r w))).
Proof.
  intros H. destruct (well_formed r) eqn:Hwf.
  2:{ rewrite (not_well_formed_skipped _ _ _ _ Hwf). exact H. }
  destruct (well_formed_fields _ Hwf) as (name & v & Hn & Hv & Hne).
  unfold process_reading, bind. rewrite Hn, Hv. simpl.
  rewrite (nonempty_eqb _ Hne). simpl.
  pose proof (select_sensor_keeps (dev_id device) name w H) as H1.
  destruct (select_sensor (dev_id device) name w) as [looked w1]. simpl in H1.
  destruct (data looked) as [sensor|].
  - keep_reading H1.
  - pose proof (insert_sensor_keeps (dev_id device) name w1 H1) as H2.
    destruct (insert_sensor (dev_id device) name name "" w1) as [[e | newSensor] w2];
      simpl in H2.
    + exact H2.
    + keep_reading H2.
Qed.

Lemma process_readings_keeps device batch : forall inserted w,
  P (store w) -> P (store (snd (process_readings device inserted batch w))).
Proof.
  induction batch as [|r batch IH]; intros inserted w H; simpl; [exact H|].
  unfold bind.
  pose proof (process_reading_keeps device inserted r w H) as H1.
  destruct (process_reading device inserted r w) as [ins w1]. apply IH, H1.
Qed.

Lemma serve_keeps req w : P (store w) -> P (store (snd (serve req w))).
Proof.
  intros H.
  destruct (serve_cases req w)
    as [[Hm ->] | [(Hm & _ & ->) | [(Hm & m & _ & ->) | [(Hm & p & _ & _ & ->)
       | (Hm & key & batch & _ & Hkey & ->)]]]]; try exact H.
  pose proof (select_device_keeps key w H) as H1.
  destruct (serve_post_cases key batch w Hkey)
    as [(w1 & E & ->) | [(e & w1 & E & ->) | (d & w1 & E & ->)]];
    rewrite E in H1; simpl in *; try exact H1.
  apply process_readings_keeps, H1.
Qed.

End Preservation.

(** *** Nothing is taken away *)

Lemma grown_refl s : grown s s.
Proof.
  split; [exists []; symmetry; apply app_nil_r|].
  split; [|reflexivity].
  exists []. split; [symmetry; apply app_nil_r | constructor].
Qed.

Lemma identity_of_touch d ts x : identity_of (touch_device d ts x) = identity_of x.
Proof. unfold touch_device. destruct (Nat.eqb _ _); reflexivity. Qed.

Lemma identity_of_last_seen row s :
  map identity_of (update_device_last_seen row s) = map identity_of (devices s).
Proof.
  unfold update_device_last_seen. destruct (List.find _ _) as [x|]; [|reflexivity].
  rewrite map_map. apply map_ext. intros dv. apply identity_of_touch.
Qed.

Lemma serve_grows req w : grown (store w) (store (snd (serve req w))).
Proof.
  apply (serve_keeps (grown (store w))); [| |apply grown_refl].
  - intros d name ts s ((rows & Hr) & (fresh & Hs & Hf) & Hd) _.
    split; [exists rows; exact Hr|]. split; [|exact Hd].
    eexists (fresh ++ [_]). simpl. rewrite Hs, <- app_assoc.
    split; [reflexivity|]. apply Forall_app. split; [exact Hf|].
    constructor; [split; reflexivity | constructor].
  - intros sensor_id v ts s ((rows & Hr) & (fresh & Hs & Hf) & Hd) _.
    split; [|split].
    + eexists (rows ++ [_]). simpl. rewrite Hr, <- app_assoc. reflexivity.
    + exists fresh. split; [exact Hs | exact Hf].
    + simpl. rewrite identity_of_last_seen. exact Hd.
Qed.

(** X5. A request only ever adds to the store: the readings and the sensors
    it finds stay where they are, unchanged and in order, with the new rows
    after them; every new sensor row has its type equal to its name and an
    empty unit; and the device rows stay the same except for [last_seen]. *)
Theorem requests_only_append :
  forall req w, grown (store w) (store (snd (serve req w))).
Proof. intros req w. apply serve_grows. Qed.

(** *** One entry of an undisturbed request, in full *)

Lemma find_by_id (l : list Sensor) x :
  NoDup (map sen_id l) -> In x l ->
  List.find (fun y => Nat.eqb (sen_id y) (sen_id x)) l = Some x.
Proof.
  induction l as [|a l IH]; intros Hnd Hin; [destruct Hin|].
  simpl in *. inversion Hnd as [|? ? Hnotin Hnd']; subst.
  destruct Hin as [-> | Hin].
  - rewrite Nat.eqb_refl. reflexivity.
  - destruct (Nat.eqb (sen_id a) (sen_id x)) eqn:E; [|apply IH; assumption].
    apply Nat.eqb_eq in E. exfalso. apply Hnotin. rewrite E.
    apply list_elem_of_In, in_map, Hin.
Qed.

Lemma find_fresh_id (l : list Sensor) x :
  Forall (fun y => sen_id y < sen_id x) l ->
  List.find (fun y => Nat.eqb (sen_id y) (sen_id x)) (l ++ [x]) = Some x.
Proof.
  induction l as [|a l IH]; intros H; simpl.
  - rewrite Nat.eqb_refl. reflexivity.
  - inversion H as [|? ? Ha Hl]; subst.
    destruct (Nat.eqb (sen_id a) (sen_id x)) eqn:E; [|apply IH, Hl].
    apply Nat.eqb_eq in E. lia.
Qed.

Lemma fresh_ids_add d name type unit ts s :
  fresh_ids s -> fresh_ids (fst (add_sensor d name type unit ts s)).
Proof.
  intros [Hnd Hlt]. split; simpl.
  - rewrite map_app. simpl. apply NoDup_app. split; [exact Hnd|]. split.
    + intros i Hi Hx. apply list_elem_of_In in Hi, Hx.
      destruct Hx as [<- | []]. apply in_map_iff in Hi.
      destruct Hi as (y & Hy & Hin). rewrite List.Forall_forall in Hlt.
      specialize (Hlt y Hin). lia.
    + apply NoDup_singleton.
  - apply Forall_app. split.
    + eapply List.Forall_impl; [|exact Hlt]. simpl. intros y Hy. lia.
    + constructor; [simpl; lia | constructor].
Qed.

Lemma insert_reading_settled sid x v ts w :
  Forall quiet (schedule w) -> In x (sensors (store w)) -> sen_id x = sid ->
  exists w',
    insert_reading sid v ts w = (inr (reading_row sid v ts (store w)), w') /\
    store w' = add_reading (reading_row sid v ts (store w)) (store w) /\
    now w <= now w' /\ Forall quiet (schedule w').
Proof.
  intros Hq Hin Hid. destruct (awaited_calm w Hq) as (Hf & Hs & Hq').
  rewrite insert_reading_eq. cbv zeta. rewrite Hf, Hs.
  replace (existsb (fun y => Nat.eqb (sen_id y) sid) (sensors (store w))) with true.
  2:{ symmetry. apply existsb_exists. exists x. split; [exact Hin|].
      apply Nat.eqb_eq, Hid. }
  cbn [negb]. eexists. split; [reflexivity|].
  unfold logged, stored. cbn [store schedule now].
  split; [reflexivity|]. split; [unfold awaited; cbn [now]; lia | exact Hq'].
Qed.

Lemma reading_added device x v ts s :
  In x (sensors s) -> sen_device_id x = dev_id device ->
  unique_sensors s -> has_device s (dev_id device) ->
  let row := reading_row (sen_id x) v ts s in
  let s' := add_reading row s in
  unique_sensors s' /\ has_device s' (dev_id device) /\
  sensors s' = sensors s /\ readings s' = readings s ++ [row] /\
  rd_sensor_id row = sen_id x /\ rd_value row = v /\ rd_timestamp row = ts /\
  (fresh_ids s ->
   fresh_ids s' /\
   devices s' = map (touch_device (dev_id device) ts) (devices s)).
Proof.
  intros Hin Hdev Hu Hd row s'.
  split; [exact Hu|]. split; [apply has_device_add_reading, Hd|].
  repeat (split; [reflexivity|]).
  intros [Hnd Hlt]. split; [split; assumption|].
  subst s' row. unfold add_reading, update_device_last_seen. simpl.
  rewrite (find_by_id _ _ Hnd Hin), Hdev. reflexivity.
Qed.

Lemma settled_entry device inserted name v w :
  name <> "" -> settled device w ->
  exists x row w',
    process_reading device inserted (entry name v) w = (inserted ++ [row], w') /\
    settled device w' /\
    (now w <= rd_timestamp row /\ rd_timestamp row <= now w') /\
    In x (sensors (store w')) /\
    sen_device_id x = dev_id device /\ sen_name x = name /\
    rd_sensor_id row = sen_id x /\ rd_value row = v /\
    readings (store w') = readings (store w) ++ [row] /\
    sensors (store w') =
      (if existsb (sensor_is (dev_id device) name) (sensors (store w))
       then sensors (store w) else sensors (store w) ++ [x]) /\
    (fresh_ids (store w) ->
     fresh_ids (store w') /\
     devices (store w') =
       map (touch_device (dev_id device) (rd_timestamp row)) (devices (store w))).
Proof.
  intros Hne (Hq & Hu & Hd).
  unfold process_reading, entry, bind. simpl.
  rewrite (nonempty_eqb _ Hne). simpl.
  destruct (select_sensor_calm (dev_id device) name w Hq) as (w1 & -> & Hs1 & Ht1 & Hq1).
  destruct (List.filter (sensor_is (dev_id device) name) (sensors (store w)))
    as [|x [|other more]] eqn:Hf.
  - (* first sighting *)
    pose proof (filter_nil_existsb _ _ Hf) as Hex.
    destruct (insert_sensor_calm (dev_id device) name name "" w1 Hq1)
      as (w2 & E2 & Hs2 & Ht2 & Hq2).
    { rewrite Hs1. exact Hd. }
    { rewrite Hs1. exact Hex. }
    cbn [maybe_single data]. rewrite E2. cbn [gets ret].
    set (x := snd (add_sensor (dev_id device) name name "" (now w2) (store w1))) in *.
    assert (Hin : In x (sensors (store w2))).
    { rewrite Hs2. simpl. apply in_or_app. right. left. reflexivity. }
    destruct (insert_reading_settled (sen_id x) x v (now w2) w2 Hq2 Hin eq_refl)
      as (w3 & E3 & Hs3 & Ht3 & Hq3).
    rewrite E3.
    assert (Hu2 : unique_sensors (store w2)).
    { rewrite Hs2, Hs1. apply unique_sensors_add; assumption. }
    assert (Hd2 : has_device (store w2) (dev_id device)).
    { rewrite Hs2, Hs1. exact Hd. }
    destruct (reading_added device x v (now w2) (store w2) Hin eq_refl Hu2 Hd2)
      as (Hu3 & Hd3 & Hsen & Hrd & Hr1 & Hr2 & Hr3 & Hfresh).
    rewrite <- Hs3 in Hu3, Hd3, Hsen, Hrd, Hfresh.
    exists x, (reading_row (sen_id x) v (now w2) (store w2)), w3.
    split; [reflexivity|]. split; [repeat split; assumption|].
    split; [rewrite Hr3; lia|]. split; [rewrite Hsen; exact Hin|].
    split; [reflexivity|]. split; [reflexivity|].
    split; [exact Hr1|]. split; [exact Hr2|].
    split; [rewrite Hrd, Hs2; simpl; rewrite Hs1; reflexivity|].
    split; [rewrite Hsen, Hs2, Hex; unfold x; simpl; rewrite Hs1; reflexivity|].
    intros Hfr. destruct Hfresh as [Hf3 Hdv].
    { rewrite Hs2. apply fresh_ids_add. rewrite Hs1. exact Hfr. }
    split; [exact Hf3|]. rewrite Hdv, Hr3, Hs2. simpl. rewrite Hs1. reflexivity.
  - (* the sensor is known *)
    destruct (filter_single_in _ _ _ Hf) as [Hin Hmatch].
    destruct (sensor_is_inv _ _ _ Hmatch) as [Hxd Hxn].
    assert (Hex : existsb (sensor_is (dev_id device) name) (sensors (store w)) = true).
    { apply existsb_exists. exists x. split; assumption. }
    cbn [maybe_single data gets ret].
    rewrite <- Hs1 in Hin.
    destruct (insert_reading_settled (sen_id x) x v (now w1) w1 Hq1 Hin eq_refl)
      as (w3 & E3 & Hs3 & Ht3 & Hq3).
    rewrite E3.
    assert (Hu1 : unique_sensors (store w1)) by (rewrite Hs1; exact Hu).
    assert (Hd1 : has_device (store w1) (dev_id device)) by (rewrite Hs1; exact Hd).
    destruct (reading_added device x v (now w1) (store w1) Hin Hxd Hu1 Hd1)
      as (Hu3 & Hd3 & Hsen & Hrd & Hr1 & Hr2 & Hr3 & Hfresh).
    rewrite <- Hs3 in Hu3, Hd3, Hsen, Hrd, Hfresh.
    exists x, (reading_row (sen_id x) v (now w1) (store w1)), w3.
    split; [reflexivity|]. split; [repeat split; assumption|].
    split; [rewrite Hr3; lia|]. split; [rewrite Hsen; exact Hin|].
    split; [exact Hxd|]. split; [exact Hxn|].
    split; [exact Hr1|]. split; [exact Hr2|].
    split; [rewrite Hrd, Hs1; reflexivity|].
    split; [rewrite Hsen, Hs1, Hex; reflexivity|].
    intros Hfr. destruct Hfresh as [Hf3 Hdv].
    { rewrite Hs1. exact Hfr. }
    split; [exact Hf3|]. rewrite Hdv, Hr3, Hs1. reflexivity.
  - specialize (Hu (dev_id device) name). rewrite Hf in Hu. simpl in Hu. lia.
Qed.

(** *** A whole batch of an undisturbed request *)

Lemma touch_device_over d ts ts' x :
  touch_device d ts' (touch_device d ts x) = touch_device d ts' x.
Proof.
  unfold touch_device. destruct (Nat.eqb (dev_id x) d) eqn:E; simpl; rewrite E;
    reflexivity.
Qed.

Lemma seen_at_cons d row rows ds :
  seen_at d (row :: rows) ds =
  seen_at d rows (map (touch_device d (rd_timestamp row)) ds).
Proof.
  unfold seen_at. rewrite last_cons. destruct (last rows) as [row'|]; [|reflexivity].
  rewrite map_map. apply map_ext. intros x. symmetry. apply touch_device_over.
Qed.

Lemma ascending_le lo ts hi : ascending lo ts hi -> lo <= hi.
Proof.
  revert lo. induction ts as [|t ts IH]; simpl; intros lo H; [exact H|].
  destruct H as [H1 H2]. specialize (IH _ H2). lia.
Qed.

Lemma ascending_from lo lo' ts hi : lo' <= lo -> ascending lo ts hi -> ascending lo' ts hi.
Proof. destruct ts as [|t ts]; simpl; intros H1 H2; [lia | split; [lia | tauto]]. Qed.

Lemma row_of_entry_later d s s' row r :
  incl (sensors s) (sensors s') ->
  row_of_entry d s row r -> row_of_entry d s' row r.
Proof.
  intros Hincl (Hv & x & Hin & Hx). split; [exact Hv|].
  exists x. split; [apply Hincl, Hin | exact Hx].
Qed.

Lemma accepted_cons r batch :
  accepted (r :: batch) = if well_formed r then r :: accepted batch else accepted batch.
Proof. reflexivity. Qed.

Lemma settled_batch device batch : forall inserted w,
  settled device w ->
  exists rows,
    fst (process_readings device inserted batch w) = inserted ++ rows /\
    settled device (snd (process_readings device inserted batch w)) /\
    ascending (now w) (map rd_timestamp rows)
      (now (snd (process_readings device inserted batch w))) /\
    readings (store (snd (process_readings device inserted batch w))) =
      readings (store w) ++ rows /\
    incl (sensors (store w))
         (sensors (store (snd (process_readings device inserted batch w)))) /\
    Forall2 (row_of_entry (dev_id device)
               (store (snd (process_readings device inserted batch w))))
            rows (accepted batch) /\
    ((forall r name, In r (accepted batch) -> sensor_name r = Some name ->
        existsb (sensor_is (dev_id device) name) (sensors (store w)) = true) ->
     sensors (store (snd (process_readings device inserted batch w))) =
       sensors (store w)) /\
    (fresh_ids (store w) ->
     fresh_ids (store (snd (process_readings device inserted batch w))) /\
     devices (store (snd (process_readings device inserted batch w))) =
       seen_at (dev_id device) rows (devices (store w))).
Proof.
  induction batch as [|r batch IH]; intros inserted w Hset.
  - exists []. simpl. rewrite !app_nil_r.
    split; [reflexivity|]. split; [exact Hset|]. split; [lia|].
    split; [reflexivity|]. split; [apply incl_refl|].
    split; [exact (List.Forall2_nil _)|]. split; [reflexivity|].
    intros Hfr. split; [exact Hfr | reflexivity].
  - simpl process_readings. unfold bind. rewrite accepted_cons.
    destruct (well_formed r) eqn:Hwf.
    2:{ rewrite (not_well_formed_skipped _ _ _ _ Hwf). apply IH, Hset. }
    destruct (well_formed_fields _ Hwf) as (name & v & Hn & Hv & Hne).
    assert (Hr : r = entry name v) by (destruct r; simpl in *; subst; reflexivity).
    destruct (settled_entry device inserted name v w Hne Hset)
      as (x & row & w1 & E & Hset1 & [Hlo Hhi] & Hin & Hxd & Hxn & Hr1 & Hr2
          & Hrd & Hsen & Hfresh).
    assert (E' : process_reading device inserted r w = (inserted ++ [row], w1))
      by (rewrite Hr; exact E).
    rewrite E'.
    destruct (IH (inserted ++ [row]) w1 Hset1)
      as (rows & F1 & F2 & F3 & F4 & F5 & F6 & F7 & F8).
    set (out := process_readings device (inserted ++ [row]) batch w1) in *.
    assert (Hincl : incl (sensors (store w)) (sensors (store w1))).
    { rewrite Hsen. destruct (existsb _ _); [apply incl_refl | apply incl_appl, incl_refl]. }
    exists (row :: rows).
    split; [rewrite F1, <- app_assoc; reflexivity|].
    split; [exact F2|].
    split; [simpl; split; [exact Hlo | exact (ascending_from _ _ _ _ Hhi F3)]|].
    split; [rewrite F4, Hrd, <- app_assoc; reflexivity|].
    split; [eapply incl_tran; eassumption|].
    split.
    { apply List.Forall2_cons.
      - apply (row_of_entry_later _ (store w1)); [exact F5|].
        split; [rewrite Hv, Hr2; reflexivity|].
        exists x. rewrite Hn, Hxn. repeat split; try assumption. congruence.
      - exact F6. }
    split.
    { intros Hall.
      assert (Hex : existsb (sensor_is (dev_id device) name) (sensors (store w)) = true).
      { apply (Hall r name); [left; reflexivity | exact Hn]. }
      rewrite Hex in Hsen. rewrite F7, Hsen; [reflexivity|].
      intros r' name' Hin' Hn'. rewrite Hsen. apply (Hall r' name'); [right; exact Hin' | exact Hn']. }
    intros Hfr. destruct (Hfresh Hfr) as [Hfr1 Hdv1].
    destruct (F8 Hfr1) as [Hfr2 Hdv2]. split; [exact Hfr2|].
    rewrite Hdv2, Hdv1, seen_at_cons. reflexivity.
Qed.

(** An undisturbed POST whose key matches one device reaches the loop. *)
Lemma settled_post key batch w device :
  key <> "" ->
  List.filter (fun d => String.eqb (dev_api_key d) key) (devices (store w)) = [device] ->
  Forall quiet (schedule w) ->
  unique_sensors (store w) ->
  exists w1,
    store w1 = store w /\ now w <= now w1 /\ settled device w1 /\
    serve (post key batch) w =
      (respond 200 (SuccessBody true (dev_id device)
                      (length (fst (process_readings device [] batch w1)))),
       snd (process_readings device [] batch w1)).
Proof.
  intros Hkey Hone Hq Hu.
  destruct (awaited_calm w Hq) as (Hf & Hs & Hq1).
  rewrite (serve_post _ _ _ Hkey), select_device_eq, Hf, Hs, Hone. cbv zeta.
  cbn [maybe_single error].
  eexists. split; [|split; [|split; [|reflexivity]]].
  - reflexivity.
  - unfold logged, awaited. cbn [now]. lia.
  - split; [exact Hq1|]. split; [exact Hu|].
    apply (matched_device_present key), Hone.
Qed.

Lemma forall2_right {A B} (R : A -> B -> Prop) l l' y :
  Forall2 R l l' -> In y l' -> exists x, In x l /\ R x y.
Proof.
  induction 1 as [|a b l l' Hab _ IH]; intros Hin; [destruct Hin|].
  destruct Hin as [<- | Hin].
  - exists a. split; [left; reflexivity | exact Hab].
  - destruct (IH Hin) as (x & Hx & HR). exists x. split; [right; exact Hx | exact HR].
Qed.

Lemma named_sensor_in_store d s row r name :
  row_of_entry d s row r -> sensor_name r = Some name ->
  existsb (sensor_is d name) (sensors s) = true.
Proof.
  intros (_ & x & Hin & _ & Hxd & Hxn) Hn. apply existsb_exists.
  exists x. split; [exact Hin|]. unfold sensor_is.
  rewrite Hn in Hxn. injection Hxn as ->. rewrite Hxd, Nat.eqb_refl, String.eqb_refl.
  reflexivity.
Qed.

Lemma existsb_filter_length {A} (f : A -> bool) (l : list A) :
  existsb f l = true -> 1 <= length (List.filter f l).
Proof.
  induction l as [|a l IH]; simpl; [discriminate|].
  destruct (f a); simpl; [lia | exact IH].
Qed.

(** The facts of an undisturbed, authenticated request, gathered once. *)
Lemma settled_request key batch w device :
  key <> "" ->
  List.filter (fun d => String.eqb (dev_api_key d) key) (devices (store w)) = [device] ->
  Forall quiet (schedule w) ->
  unique_sensors (store w) ->
  exists rows,
    fst (serve (post key batch) w) =
      respond 200 (SuccessBody true (dev_id device) (length rows)) /\
    settled device (snd (serve (post key batch) w)) /\
    readings (store (snd (serve (post key batch) w))) = readings (store w) ++ rows /\
    Forall2 (row_of_entry (dev_id device) (store (snd (serve (post key batch) w))))
            rows (accepted batch) /\
    ascending (now w) (map rd_timestamp rows) (now (snd (serve (post key batch) w))) /\
    ((forall r name, In r (accepted batch) -> sensor_name r = Some name ->
        existsb (sensor_is (dev_id device) name) (sensors (store w)) = true) ->
     sensors (store (snd (serve (post key batch) w))) = sensors (store w)) /\
    (fresh_ids (store w) ->
     devices (store (snd (serve (post key batch) w))) =
       seen_at (dev_id device) rows (devices (store w))).
Proof.
  intros Hkey Hone Hq Hu.
  destruct (settled_post key batch w device Hkey Hone Hq Hu)
    as (w1 & Hs1 & Hn1 & Hset1 & ->).
  destruct (settled_batch device batch [] w1 Hset1)
    as (rows & F1 & F2 & F3 & F4 & F5 & F6 & F7 & F8).
  exists rows. cbn [fst snd]. rewrite F1. cbn [app].
  split; [reflexivity|]. split; [exact F2|].
  split; [rewrite F4, Hs1; reflexivity|].
  split; [exact F6|].
  split; [exact (ascending_from _ _ _ _ Hn1 F3)|].
  split; [rewrite <- Hs1; exact F7|].
  intros Hfr. rewrite <- Hs1 in Hfr. destruct (F8 Hfr) as [_ Hdv].
  rewrite Hdv, Hs1. reflexivity.
Qed.

(** The clock of the function moves while it waits for the database: in
    [slow_world] the two rows of [two_entries] carry the instants 112 and
    121, and [last_seen] of the device ends at 121. *)
Example timestamps_in_slow_world :
  map rd_timestamp
    (readings (store (snd (serve (post "abc123" two_entries) slow_world)))) = [112; 121] /\
  map dev_last_seen
    (devices (store (snd (serve (post "abc123" two_entries) slow_world)))) = [121] /\
  now slow_world = 100 /\
  now (snd (serve (post "abc123" two_entries) slow_world)) = 124.
Proof. repeat split; reflexivity. Qed.

Lemma slow_world_quiet : Forall quiet (schedule slow_world).
Proof. repeat constructor. Qed.



(** X7. After an undisturbed request whose key matches one device, every
    name of an entry with a non-empty name and a non-null value has exactly
    one sensor row under that device. *)
Theorem every_accepted_name_has_one_sensor :
  forall key batch w device r name,
    key <> "" ->
    List.filter (fun d => String.eqb (dev_api_key d) key) (devices (store w)) = [device] ->
    Forall quiet (schedule w) ->
    unique_sensors (store w) ->
    In r batch -> well_formed r = true -> sensor_name r = Some name ->
    length (List.filter (sensor_is (dev_id device) name)
              (sensors (store (snd (serve (post key batch) w))))) = 1.
Proof.
  intros key batch w device r name Hkey Hone Hq Hu Hin Hwf Hn.
  destruct (settled_request key batch w device Hkey Hone Hq Hu)
    as (rows & _ & (_ & Hu' & _) & _ & Hrows & _).
  assert (Hacc : In r (accepted batch)) by (apply List.filter_In; split; assumption).
  destruct (forall2_right _ _ _ _ Hrows Hacc) as (row & _ & Hrow).
  pose proof (named_sensor_in_store _ _ _ _ _ Hrow Hn) as Hex.
  apply existsb_filter_length in Hex. specialize (Hu' (dev_id device) name). lia.
Qed.

Lemma every_accepted_name_has_one_sensor_witness :
  length (List.filter (sensor_is 1 "temp")
            (sensors (store (snd (serve
               (post "abc123" [entry "temp" (43 # 2)%Q; entry "temp" (22 # 1)%Q])
               (world_of one_device [])))))) = 1.
Proof.
  apply (every_accepted_name_has_one_sensor "abc123"
           [entry "temp" (43 # 2)%Q; entry "temp" (22 # 1)%Q]
           (world_of one_device []) D1 (entry "temp" (22 # 1)%Q) "temp").
  - discriminate.
  - reflexivity.
  - constructor.
  - intros d n. simpl. lia.
  - right. left. reflexivity.
  - reflexivity.
  - reflexivity.
Defined.

Lemma ascending_last lo ts hi t :
  ascending lo ts hi -> last ts = Some t -> lo <= t /\ t <= hi.
Proof.
  revert lo. induction ts as [|a ts IH]; simpl; intros lo H Hl; [discriminate|].
  destruct H as [H1 H2]. rewrite last_cons in Hl.
  destruct (last ts) as [b|] eqn:E.
  - destruct (IH _ H2 Hl). lia.
  - injection Hl as <-. pose proof (ascending_le _ _ _ H2). lia.
Qed.

Lemma forall2_last_some {A B} (R : A -> B -> Prop) l l' :
  Forall2 R l l' -> l' <> [] -> exists x, last l = Some x.
Proof.
  intros H Hne. destruct H as [|a b l l' _ _]; [congruence|].
  rewrite last_cons. destruct (last l); eexists; reflexivity.
Qed.

(** X8. An undisturbed request that stores at least one reading leaves
    [last_seen] of the device whose key it carries at the timestamp of the
    last row it stored, through the trigger on [readings]: an instant between
    the arrival of the request and its response.  The rows of the other
    devices stay as they were. *)
Theorem ingestion_advances_last_seen :
  forall key batch w device,
    key <> "" ->
    List.filter (fun d => String.eqb (dev_api_key d) key) (devices (store w)) = [device] ->
    Forall quiet (schedule w) ->
    unique_sensors (store w) ->
    fresh_ids (store w) ->
    accepted batch <> [] ->
    exists row,
      last (readings (store (snd (serve (post key batch) w)))) = Some row /\
      now w <= rd_timestamp row /\
      rd_timestamp row <= now (snd (serve (post key batch) w)) /\
      (forall dv, In dv (devices (store (snd (serve (post key batch) w)))) ->
                  dev_id dv = dev_id device -> dev_last_seen dv = rd_timestamp row) /\
      (forall dv, In dv (devices (store w)) -> dev_id dv <> dev_id device ->
                  In dv (devices (store (snd (serve (post key batch) w))))).
Proof.
  intros key batch w device Hkey Hone Hq Hu Hfr Hne.
  destruct (settled_request key batch w device Hkey Hone Hq Hu)
    as (rows & _ & _ & Hrd & Hrows & Hasc & _ & Hdv).
  destruct (forall2_last_some _ _ _ Hrows Hne) as (row & Hlast).
  exists row. rewrite (Hdv Hfr), Hrd. unfold seen_at. rewrite Hlast.
  split; [rewrite last_app, Hlast; reflexivity|].
  assert (Hl : last (map rd_timestamp rows) = Some (rd_timestamp row))
    by (rewrite fmap_last, Hlast; reflexivity).
  destruct (ascending_last _ _ _ _ Hasc Hl) as [Hlo Hhi].
  split; [exact Hlo|]. split; [exact Hhi|].
  split.
  - intros dv Hin Hid. apply in_map_iff in Hin. destruct Hin as (dv0 & <- & _).
    unfold touch_device in *. destruct (Nat.eqb (dev_id dv0) (dev_id device)) eqn:E.
    + reflexivity.
    + apply Nat.eqb_neq in E. contradiction.
  - intros dv Hin Hid. apply in_map_iff. exists dv. split; [|exact Hin].
    unfold touch_device. apply Nat.eqb_neq in Hid. rewrite Hid. reflexivity.
Qed.

Lemma ingestion_advances_last_seen_witness :
  exists row,
    last (readings (store (snd (serve (post "abc123" two_entries) slow_world)))) =
      Some row /\
    now slow_world <= rd_timestamp row /\
    rd_timestamp row <= now (snd (serve (post "abc123" two_entries) slow_world)) /\
    (forall dv,
        In dv (devices (store (snd (serve (post "abc123" two_entries) slow_world)))) ->
        dev_id dv = dev_id D1 -> dev_last_seen dv = rd_timestamp row) /\
    (forall dv, In dv (devices (store slow_world)) -> dev_id dv <> dev_id D1 ->
        In dv (devices (store (snd (serve (post "abc123" two_entries) slow_world))))).
Proof.
  refine (ingestion_advances_last_seen "abc123" two_entries slow_world D1
            _ _ _ _ _ _).
  - discriminate.
  - reflexivity.
  - exact slow_world_quiet.
  - intros d n. simpl. lia.
  - split; [apply NoDup_nil_2 | constructor].
  - discriminate.
Defined.

(** *** The sensors a request creates *)

Lemma existsb_names d name l :
  existsb (String.eqb name) (names_of d l) = existsb (sensor_is d name) l.
Proof.
  unfold names_of. induction l as [|a l IH]; [reflexivity|].
  cbn [List.filter existsb]. unfold sensor_is at 1.
  destruct (Nat.eqb (sen_device_id a) d); cbn [map existsb andb].
  - rewrite IH, (String.eqb_sym name). reflexivity.
  - exact IH.
Qed.

Lemma names_of_app d l l' : names_of d (l ++ l') = names_of d l ++ names_of d l'.
Proof. unfold names_of. rewrite List.filter_app, map_app. reflexivity. Qed.

Lemma created_batch device batch : forall inserted w,
  settled device w ->
  exists rows,
    sensors (store (snd (process_readings device inserted batch w))) =
      sensors (store w) ++ rows /\
    map sen_name rows =
      first_sightings (names_of (dev_id device) (sensors (store w))) batch /\
    Forall (fun x => sen_device_id x = dev_id device) rows.
Proof.
  induction batch as [|r batch IH]; intros inserted w Hset.
  - exists []. simpl. rewrite app_nil_r. repeat split. constructor.
  - simpl process_readings. unfold bind.
    destruct (well_formed r) eqn:Hwf.
    2:{ rewrite (not_well_formed_skipped _ _ _ _ Hwf).
        destruct (IH inserted w Hset) as (rows & H1 & H2 & H3).
        exists rows. split; [exact H1|]. split; [|exact H3].
        rewrite H2. cbn [first_sightings]. rewrite Hwf.
        destruct (sensor_name r); reflexivity. }
    destruct (well_formed_fields _ Hwf) as (name & v & Hn & Hv & Hne).
    assert (Hr : r = entry name v) by (destruct r; simpl in *; subst; reflexivity).
    destruct (settled_entry device inserted name v w Hne Hset)
      as (x & row & w1 & E & Hset1 & _ & Hin & Hxd & Hxn & _ & _ & _ & Hsen & _).
    assert (E' : process_reading device inserted r w = (inserted ++ [row], w1))
      by (rewrite Hr; exact E).
    rewrite E'.
    destruct (IH (inserted ++ [row]) w1 Hset1) as (rows & H1 & H2 & H3).
    cbn [first_sightings]. rewrite Hn, Hwf, existsb_names. cbn [andb].
    destruct (existsb (sensor_is (dev_id device) name) (sensors (store w))) eqn:Hex;
      cbn [negb]; rewrite Hsen in H1, H2.
    + exists rows. split; [exact H1|]. split; [exact H2 | exact H3].
    + exists (x :: rows).
      split; [rewrite H1, <- app_assoc; reflexivity|].
      split; [|constructor; assumption].
      cbn [map]. rewrite Hxn, H2, names_of_app. unfold names_of at 2.
      cbn [List.filter]. rewrite Hxd, Nat.eqb_refl. cbn [map]. rewrite Hxn.
      reflexivity.
Qed.

Example first_sightings_of_repeated_names :
  first_sightings [] repeated_names = ["temp"; "hum"] /\
  first_sightings ["hum"] repeated_names = ["temp"].
Proof. split; reflexivity. Qed.

(** X4. The sensors an undisturbed request creates.  The request appends to
    [sensors] one row for each name of an entry with a non-empty name and a
    non-null value that no sensor of the device carried yet: one row per
    such name however often the batch repeats it, in order of first
    appearance, under the device of the key, with the name as type and an
    empty unit.  Names the device already has, and entries the loop passes
    over, create nothing. *)
Theorem sensors_created_for_first_sightings :
  forall key batch w device,
    key <> "" ->
    List.filter (fun d => String.eqb (dev_api_key d) key) (devices (store w)) = [device] ->
    Forall quiet (schedule w) ->
    unique_sensors (store w) ->
    exists rows,
      sensors (store (snd (serve (post key batch) w))) = sensors (store w) ++ rows /\
      map sen_name rows =
        first_sightings (names_of (dev_id device) (sensors (store w))) batch /\
      Forall (fun x => sen_device_id x = dev_id device /\ implicit x) rows.
Proof.
  intros key batch w device Hkey Hone Hq Hu.
  destruct (serve_grows (post key batch) w) as (_ & (fresh & Hfresh & Himp) & _).
  destruct (settled_post key batch w device Hkey Hone Hq Hu)
    as (w1 & Hs1 & _ & Hset1 & E).
  rewrite E in *. cbn [snd] in *.
  destruct (created_batch device batch [] w1 Hset1) as (rows & H1 & H2 & H3).
  rewrite Hs1 in H1, H2.
  assert (Hsame : fresh = rows).
  { apply (app_inv_head (sensors (store w))). rewrite <- Hfresh. exact H1. }
  subst fresh.
  exists rows. split; [exact H1|]. split; [exact H2|].
  rewrite List.Forall_forall in *. intros x Hx. split; [apply H3, Hx | apply Himp, Hx].
Qed.

Lemma sensors_created_for_first_sightings_witness :
  exists rows,
    sensors (store (snd (serve (post "abc123" repeated_names) slow_world))) =
      sensors (store slow_world) ++ rows /\
    map sen_name rows =
      first_sightings (names_of (dev_id D1) (sensors (store slow_world)))
        repeated_names /\
    Forall (fun x => sen_device_id x = dev_id D1 /\ implicit x) rows.
Proof.
  refine (sensors_created_for_first_sightings "abc123" repeated_names slow_world D1
            _ _ _ _).
  - discriminate.
  - reflexivity.
  - exact slow_world_quiet.
  - intros d n. simpl. lia.
Defined.

(** *** Posting again *)

Lemma filter_by_key_identity key (l l' : list Device) :
  map identity_of l' = map identity_of l ->
  map identity_of (List.filter (fun d => String.eqb (dev_api_key d) key) l') =
  map identity_of (List.filter (fun d => String.eqb (dev_api_key d) key) l).
Proof.
  revert l'. induction l as [|a l IH]; intros [|a' l'] H; try discriminate.
  - reflexivity.
  - pose proof (f_equal (hd (identity_of a)) H) as Ha.
    pose proof (f_equal (@tl Device) H) as Hl.
    change (identity_of a' = identity_of a) in Ha.
    change (map identity_of l' = map identity_of l) in Hl.
    pose proof (f_equal dev_api_key Ha) as Hk.
    change (dev_api_key a' = dev_api_key a) in Hk.
    cbn [List.filter]. rewrite Hk.
    destruct (String.eqb (dev_api_key a) key); cbn [map].
    + rewrite Ha, (IH _ Hl). reflexivity.
    + apply IH, Hl.
Qed.

Lemma matched_device_again key s s' device :
  grown s s' ->
  List.filter (fun d => String.eqb (dev_api_key d) key) (devices s) = [device] ->
  exists device',
    List.filter (fun d => String.eqb (dev_api_key d) key) (devices s') = [device'] /\
    dev_id device' = dev_id device.
Proof.
  intros (_ & _ & Hd) Hone.
  pose proof (filter_by_key_identity key _ _ Hd) as H. rewrite Hone in H.
  destruct (List.filter _ (devices s')) as [|device' [|other more]]; try discriminate.
  exists device'. split; [reflexivity|].
  pose proof (f_equal (hd (identity_of device)) H) as Hd'.
  change (identity_of device' = identity_of device) in Hd'.
  apply (f_equal dev_id Hd').
Qed.

(** X9. Posting the same batch again creates no sensor: after an undisturbed
    request whose key matches one device, an undisturbed repeat of the request
    leaves the [sensors] table as the first one left it, and again reports one
    reading per entry with a non-empty name and a non-null value. *)
Theorem reposting_creates_no_sensor :
  forall key batch w device,
    key <> "" ->
    List.filter (fun d => String.eqb (dev_api_key d) key) (devices (store w)) = [device] ->
    Forall quiet (schedule w) ->
    unique_sensors (store w) ->
    let w1 := snd (serve (post key batch) w) in
    sensors (store (snd (serve (post key batch) w1))) = sensors (store w1) /\
    body (fst (serve (post key batch) w1)) =
      SuccessBody true (dev_id device) (length (accepted batch)).
Proof.
  intros key batch w device Hkey Hone Hq Hu w1.
  destruct (settled_request key batch w device Hkey Hone Hq Hu)
    as (rows & _ & (Hq1 & Hu1 & _) & _ & Hrows & _).
  fold w1 in Hq1, Hu1, Hrows.
  destruct (matched_device_again key (store w) (store w1) device
              (serve_grows (post key batch) w) Hone) as (device' & Hone' & Hid).
  destruct (settled_request key batch w1 device' Hkey Hone' Hq1 Hu1)
    as (rows' & Hresp & _ & _ & Hrows' & _ & Hsame & _).
  split.
  - apply Hsame. intros r name Hin Hn.
    destruct (forall2_right _ _ _ _ Hrows Hin) as (row & _ & Hrow).
    rewrite Hid. apply (named_sensor_in_store _ _ _ _ _ Hrow Hn).
  - rewrite Hresp. simpl. rewrite Hid.
    rewrite (Forall2_length _ _ _ Hrows'). reflexivity.
Qed.

Lemma reposting_creates_no_sensor_witness :
  let batch := [entry "temp" (43 # 2)%Q; entry "hum" (60 # 1)%Q] in
  let w1 := snd (serve (post "abc123" batch) (world_of one_device [])) in
  sensors (store (snd (serve (post "abc123" batch) w1))) = sensors (store w1) /\
  body (fst (serve (post "abc123" batch) w1)) = SuccessBody true 1 2.
Proof.
  apply (reposting_creates_no_sensor "abc123"
           [entry "temp" (43 # 2)%Q; entry "hum" (60 # 1)%Q]
           (world_of one_device []) D1).
  - discriminate.
  - reflexivity.
  - constructor.
  - intros d n. simpl. lia.
Defined.

End IngestInvariants.

(** ** Further properties of the traffic simulator *)
Module SimulatorSessions.
Import Simulator SimulatorFacts.

(** *** Entries and intervals correspond *)

Lemma faithful_mount rnd time : faithful (world (mount rnd time)).
Proof. intros sensor sim H. simpl in H. rewrite lookup_empty in H. discriminate. Qed.

Lemma faithful_start w device sensor name type unit' :
  consistent w -> faithful w ->
  faithful (snd (startSimulator (simulators w) device sensor name type unit' w)).
Proof.
  intros Hc Hf. pose proof Hc as (_ & _ & Hlt & _).
  destruct (ctx_isRunning (simulators w) sensor) eqn:Hr.
  { rewrite (startSimulator_running _ _ _ _ _ _ _ Hr). exact Hf. }
  destruct (startSimulator_fresh (simulators w) device sensor name type unit' w Hr)
    as (Hs & Hi & _).
  intros s sim. rewrite Hs, Hi. intros H.
  apply lookup_insert_Some in H. destruct H as [[<- <-] | [Hne H]].
  - simpl. split; [reflexivity|]. eexists. split; [reflexivity|].
    apply lookup_insert_eq.
  - destruct (Hf _ _ H) as (Hid & h & Hh & Harm). split; [exact Hid|].
    exists h. split; [exact Hh|]. rewrite lookup_insert_ne; [exact Harm|].
    assert (h < next_handle w) by (apply Hlt; eauto). lia.
Qed.

Lemma faithful_stop w sensor :
  faithful w -> faithful (snd (stopSimulator (simulators w) sensor w)).
Proof.
  intros Hf.
  destruct (stopSimulator_fields (simulators w) sensor w) as (Hs & Hi & _).
  intros s sim. rewrite Hs, Hi. intros H.
  apply lookup_delete_Some in H. destruct H as [Hne H].
  destruct (Hf _ _ H) as (Hid & h & Hh & Harm). split; [exact Hid|].
  exists h. split; [exact Hh|].
  destruct (simulators w !! sensor) as [sim0|] eqn:H0; simpl; [|exact Harm].
  destruct (armed (intervalId sim0)) as [h0|] eqn:Ha; [|exact Harm].
  rewrite lookup_delete_ne; [exact Harm|]. intros <-.
  destruct (Hf _ _ H0) as (_ & h1 & Hh1 & Harm1).
  assert (h1 = h0).
  { rewrite Hh1 in Ha. destruct h1; simpl in Ha; congruence. }
  subst h1. congruence.
Qed.

Lemma faithful_fire w h : faithful w -> faithful (snd (fire h w)).
Proof.
  intros Hf. unfold fire.
  destruct (intervals w !! h) as [[sensor type]|] eqn:Hh; [|exact Hf].
  destruct (simulators w !! sensor) as [current|] eqn:Hcur.
  2:{ rewrite (on_interval_absent _ _ _ Hcur). exact Hf. }
  destruct (on_interval_present sensor type current w Hcur) as (Hs & Hi & _).
  intros s sim. rewrite Hs, Hi. intros H.
  apply lookup_insert_Some in H. destruct H as [[<- <-] | [Hne H]].
  - simpl. apply (Hf _ _ Hcur).
  - apply (Hf _ _ H).
Qed.

Lemma sound_step w a :
  consistent w /\ faithful w -> consistent (step w a) /\ faithful (step w a).
Proof.
  intros [Hc Hf]. split; [apply consistent_step, Hc|].
  destruct a as [device sensor name type unit' | sensor | h | ms]; simpl.
  - apply faithful_start; assumption.
  - apply faithful_stop, Hf.
  - apply faithful_fire, Hf.
  - exact Hf.
Qed.

Lemma sound_run acts : forall w,
  consistent w /\ faithful w -> consistent (run acts w) /\ faithful (run acts w).
Proof.
  unfold run. induction acts as [|a acts IH]; intros w H; simpl; [exact H|].
  apply IH, sound_step, H.
Qed.

Lemma sound_session rnd time acts :
  consistent (run acts (world (mount rnd time))) /\
  faithful (run acts (world (mount rnd time))).
Proof. apply sound_run. split; [apply consistent_mount | apply faithful_mount]. Qed.

(** X10. In every session, a sensor is reported running exactly when an
    interval is armed for it; so when no sensor is running no interval is
    armed. *)
Theorem running_iff_interval_armed :
  forall rnd time acts sensor,
    let w := run acts (world (mount rnd time)) in
    (ctx_isRunning (simulators w) sensor = true <->
     exists h type, intervals w !! h = Some (sensor, type)) /\
    (simulators w = ∅ -> intervals w = ∅).
Proof.
  intros rnd time acts sensor w.
  destruct (sound_session rnd time acts) as [Hc Hf]. fold w in Hc, Hf.
  pose proof Hc as (Harm & Hrun & _).
  split; [split|].
  - unfold ctx_isRunning. destruct (simulators w !! sensor) as [sim|] eqn:E;
      [|discriminate].
    intros _. destruct (Hf _ _ E) as (_ & h & _ & Hh). eauto.
  - intros (h & type & Hh). destruct (Harm _ _ _ Hh) as (sim & Hsim & _).
    unfold ctx_isRunning. rewrite Hsim. apply (Hrun _ _ Hsim).
  - intros Hempty. apply map_eq. intros h. rewrite lookup_empty.
    destruct (intervals w !! h) as [[s t]|] eqn:Hh; [|reflexivity].
    destruct (Harm _ _ _ Hh) as (sim & Hsim & _).
    rewrite Hempty, lookup_empty in Hsim. discriminate.
Qed.

(** *** Toggling *)

(** X11. On the simulator page, toggling a sensor that is not running starts
    it, and toggling it again stops it: the map and the armed intervals are
    back to what they were, and the one initial reading has been sent. *)
Theorem toggle_twice_restores :
  forall w device sensor,
    consistent w ->
    ctx_isRunning (simulators w) (row_id sensor) = false ->
    let w1 := snd (toggleSimulator (simulators w) device sensor w) in
    let w2 := snd (toggleSimulator (simulators w1) device sensor w1) in
    ctx_isRunning (simulators w1) (row_id sensor) = true /\
    simulators w2 = simulators w /\
    intervals w2 = intervals w /\
    exists v, outbox w2 = outbox w ++ [sent (row_id sensor) (now w) v].
Proof.
  intros w device sensor Hc Hr w1 w2.
  pose proof Hc as (_ & _ & Hlt & Hpos).
  pose proof (consistent_not_running _ _ Hc Hr) as Hnone.
  assert (E1 : w1 = snd (startSimulator (simulators w) device (row_id sensor)
                           (row_name sensor) (row_type sensor) (row_unit sensor) w)).
  { subst w1. unfold toggleSimulator. rewrite Hr. reflexivity. }
  destruct (startSimulator_fresh (simulators w) device (row_id sensor)
              (row_name sensor) (row_type sensor) (row_unit sensor) w Hr)
    as (Hs & Hi & _ & Ho & _).
  rewrite <- E1 in Hs, Hi, Ho.
  assert (Hr1 : ctx_isRunning (simulators w1) (row_id sensor) = true).
  { unfold ctx_isRunning. rewrite Hs, lookup_insert_eq. reflexivity. }
  assert (E2 : w2 = snd (stopSimulator (simulators w1) (row_id sensor) w1)).
  { subst w2. unfold toggleSimulator. rewrite Hr1. reflexivity. }
  destruct (stopSimulator_fields (simulators w1) (row_id sensor) w1)
    as (Hs2 & Hi2 & _ & Ho2 & _).
  rewrite <- E2 in Hs2, Hi2, Ho2.
  split; [exact Hr1|]. split; [|split].
  - rewrite Hs2, Hs. apply delete_insert_id, Hnone.
  - rewrite Hi2, Hs, lookup_insert_eq. simpl.
    destruct (next_handle w) as [|n] eqn:En; [lia|]. simpl.
    rewrite Hi. apply delete_insert_id.
    destruct (intervals w !! S n) eqn:E; [|reflexivity].
    assert (S n < S n) by (apply Hlt; eauto). lia.
  - eexists. rewrite Ho2, Ho. reflexivity.
Qed.

Lemma toggle_twice_restores_witness :
  let w := world (mount constant_half 0) in
  let sensor := {| row_id := "s1"; row_device_id := "d1"; row_name := "Humidity";
                   row_type := "humidity"; row_unit := "%" |} in
  let w1 := snd (toggleSimulator (simulators w) "d1" sensor w) in
  let w2 := snd (toggleSimulator (simulators w1) "d1" sensor w1) in
  ctx_isRunning (simulators w1) "s1" = true /\
  simulators w2 = ∅ /\ intervals w2 = ∅ /\
  exists v, outbox w2 = [sent "s1" 0 v].
Proof.
  apply (toggle_twice_restores (world (mount constant_half 0)) "d1"
           {| row_id := "s1"; row_device_id := "d1"; row_name := "Humidity";
              row_type := "humidity"; row_unit := "%" |}).
  - apply consistent_mount.
  - reflexivity.
Defined.

(** *** One sensor at a time *)

(** X12. What is done to one sensor leaves the others alone: in a session, a
    start, a stop or a tick of one sensor changes neither the map entry of
    any other sensor nor the intervals armed for it. *)
Theorem other_sensors_are_untouched :
  forall rnd time acts a other,
    let w := run acts (world (mount rnd time)) in
    target w a <> Some other ->
    simulators (step w a) !! other = simulators w !! other /\
    (forall h type, intervals w !! h = Some (other, type) ->
                    intervals (step w a) !! h = Some (other, type)).
Proof.
  intros rnd time acts a other w Hne.
  destruct (sound_session rnd time acts) as [Hc Hf]. fold w in Hc, Hf.
  pose proof Hc as (_ & _ & Hlt & _).
  destruct a as [device sensor name type unit' | sensor | h | ms]; simpl in *.
  - assert (sensor <> other) by congruence.
    destruct (ctx_isRunning (simulators w) sensor) eqn:Hr.
    { rewrite (startSimulator_running _ _ _ _ _ _ _ Hr). auto. }
    destruct (startSimulator_fresh (simulators w) device sensor name type unit' w Hr)
      as (Hs & Hi & _).
    rewrite Hs, Hi. split; [apply lookup_insert_ne; assumption|].
    intros h t Hh. rewrite lookup_insert_ne; [exact Hh|].
    assert (h < next_handle w) by (apply Hlt; eauto). lia.
  - assert (sensor <> other) by congruence.
    destruct (stopSimulator_fields (simulators w) sensor w) as (Hs & Hi & _).
    rewrite Hs, Hi. split; [apply lookup_delete_ne; assumption|].
    intros h t Hh.
    destruct (simulators w !! sensor) as [sim0|] eqn:H0; simpl; [|exact Hh].
    destruct (armed (intervalId sim0)) as [h0|] eqn:Ha; [|exact Hh].
    rewrite lookup_delete_ne; [exact Hh|]. intros <-.
    destruct (Hf _ _ H0) as (_ & h1 & Hh1 & Harm1).
    assert (h1 = h0).
    { rewrite Hh1 in Ha. destruct h1; simpl in Ha; congruence. }
    subst h1. congruence.
  - unfold fire. destruct (intervals w !! h) as [[sensor type]|] eqn:Hh; [|auto].
    simpl in Hne. assert (sensor <> other) by congruence.
    destruct (simulators w !! sensor) as [current|] eqn:Hcur.
    2:{ rewrite (on_interval_absent _ _ _ Hcur). auto. }
    destruct (on_interval_present sensor type current w Hcur) as (Hs & Hi & _).
    rewrite Hs, Hi. split; [apply lookup_insert_ne; assumption | auto].
  - auto.
Qed.

Lemma other_sensors_are_untouched_witness :
  simulators (step (world humidity_session) (Stop "s2")) !! "s1" =
  simulators (world humidity_session) !! "s1".
Proof.
  apply (other_sensors_are_untouched constant_half 0
           [Start "d1" "s1" "Humidity" "humidity" "%"] (Stop "s2") "s1").
  discriminate.
Defined.

(** X13. A tick changes nothing but the current value of its own sensor: the
    armed intervals and the next handle are as before, the map has the same
    keys, and every entry keeps its device, ids, name, type, unit, running
    flag and interval handle. *)
Theorem tick_changes_only_the_value :
  forall w h,
    intervals (snd (fire h w)) = intervals w /\
    next_handle (snd (fire h w)) = next_handle w /\
    (forall sensor,
       match simulators w !! sensor, simulators (snd (fire h w)) !! sensor with
       | Some a, Some b => same_but_value a b
       | None, None => True
       | _, _ => False
       end).
Proof.
  intros w h. unfold fire.
  assert (Hsame : forall sensor,
            match simulators w !! sensor, simulators w !! sensor with
            | Some a, Some b => same_but_value a b
            | None, None => True
            | _, _ => False
            end).
  { intros sensor. destruct (simulators w !! sensor); [repeat split | exact I]. }
  destruct (intervals w !! h) as [[sensor type]|] eqn:Hh; [|auto].
  destruct (simulators w !! sensor) as [current|] eqn:Hcur.
  2:{ rewrite (on_interval_absent _ _ _ Hcur). auto. }
  destruct (on_interval_present sensor type current w Hcur) as (Hs & Hi & Hn & _).
  rewrite Hs, Hi, Hn. split; [reflexivity|]. split; [reflexivity|].
  intros s. destruct (decide (s = sensor)) as [-> | Hne].
  - rewrite Hcur, lookup_insert_eq. repeat split.
  - rewrite lookup_insert_ne by congruence. apply Hsame.
Qed.

(** *** The running badge of the device card *)

Lemma in_values (m : gmap string SimulatorState) sim :
  In sim (map snd (map_to_list m)) <-> exists k, m !! k = Some sim.
Proof.
  rewrite in_map_iff. split.
  - intros ([k x] & <- & Hin). apply list_elem_of_In, elem_of_map_to_list in Hin.
    eauto.
  - intros (k & Hk). exists (k, sim). split; [reflexivity|].
    apply list_elem_of_In, elem_of_map_to_list, Hk.
Qed.

(** X14. In every session, the sensors the device card marks as running are
    those of its sensors that the provider reports running. *)
Theorem running_badge_agrees :
  forall (A : Type) (id : A -> string) (sensors : list A) rnd time acts s,
    let w := run acts (world (mount rnd time)) in
    In s (runningSensors id sensors (simulators w)) <->
    In s sensors /\ ctx_isRunning (simulators w) (id s) = true.
Proof.
  intros A id sensors rnd time acts s w.
  destruct (sound_session rnd time acts) as [_ Hf]. fold w in Hf.
  unfold runningSensors. rewrite List.filter_In.
  split; intros [Hin H]; (split; [exact Hin|]).
  - apply existsb_exists in H. destruct H as (sim & Hv & Hm).
    apply in_values in Hv. destruct Hv as (k & Hk).
    apply andb_prop in Hm. destruct Hm as [Hid Hrun].
    apply String.eqb_eq in Hid. destruct (Hf _ _ Hk) as [Hkey _].
    unfold ctx_isRunning. rewrite <- Hid, Hkey, Hk. exact Hrun.
  - unfold ctx_isRunning in H.
    destruct (simulators w !! id s) as [sim|] eqn:Hk; [|discriminate].
    apply existsb_exists. exists sim. split; [apply in_values; eauto|].
    destruct (Hf _ _ Hk) as [Hkey _]. rewrite Hkey, String.eqb_refl. exact H.
Qed.

(** *** The first value of a sensor *)

Ltac first_value_case :=
  unfold bind, ret, Math_random; cbn [fst snd random draws];
  match goal with
  | |- (_ <= Qmax 0 ?x <= _)%Q =>
      destruct (Q.max_spec 0 x) as [[? E] | [? E]]; rewrite E; split; lra
  end.

(** X15. The first value of a sensor, for draws of [Math.random()] in
    [0, 1), lies in the range of its type widened by one unit, both ends
    included: 19 to 31 for temperature, 39 to 81 for humidity, 999 to 1051
    for pressure, 0 to 1001 for light, 399 to 1001 for co2, 2 to 6 for
    voltage and 0 to 101 for any other type, whatever the case the type is
    written in.  The upper ends are included because the code adds in
    floating point, where a sum just below an end can round to it. *)
Theorem first_value_in_range :
  forall type w,
    (0 <= random w (draws w) < 1)%Q ->
    (0 <= random w (S (draws w)) < 1)%Q ->
    (fst (range_of (toLowerCase type)) <= fst (generateValue type None w)
       <= snd (range_of (toLowerCase type)))%Q.
Proof.
  intros type w [H1 H1'] [H2 H2'].
  unfold generateValue, baseline, range_of.
  destruct (String.eqb (toLowerCase type) "temperature"); [first_value_case|].
  destruct (String.eqb (toLowerCase type) "humidity"); [first_value_case|].
  destruct (String.eqb (toLowerCase type) "pressure"); [first_value_case|].
  destruct (String.eqb (toLowerCase type) "light"); [first_value_case|].
  destruct (String.eqb (toLowerCase type) "co2"); [first_value_case|].
  destruct (String.eqb (toLowerCase type) "voltage"); [first_value_case|].
  first_value_case.
Qed.

Lemma first_value_in_range_witness :
  (39 # 1 <= fst (generateValue "Humidity" None (world (mount constant_half 0)))
     <= 81 # 1)%Q.
Proof.
  apply (first_value_in_range "Humidity" (world (mount constant_half 0))).
  - split; [discriminate | reflexivity].
  - split; [discriminate | reflexivity].
Defined.

(** *** Two starts through one closure *)

(** X16. [startSimulator] looks at the map of the render its closure was made
    in.  Called twice through the same closure for a sensor that map does not
    show running, it arms two intervals and the entry records only the
    second; a stop made after the next render clears that one and removes
    the entry, and the first interval stays armed. *)
Theorem second_start_through_same_closure_leaks :
  forall rendered device sensor name type unit' w,
    ctx_isRunning rendered sensor = false ->
    0 < next_handle w ->
    let w1 := snd (startSimulator rendered device sensor name type unit' w) in
    let w2 := snd (startSimulator rendered device sensor name type unit' w1) in
    let w3 := snd (stopSimulator (simulators w2) sensor w2) in
    intervals w2 !! next_handle w = Some (sensor, type) /\
    intervals w2 !! S (next_handle w) = Some (sensor, type) /\
    intervalId <$> simulators w2 !! sensor = Some (Some (S (next_handle w))) /\
    simulators w3 !! sensor = None /\
    intervals w3 !! S (next_handle w) = None /\
    intervals w3 !! next_handle w = Some (sensor, type).
Proof.
  intros rendered device sensor name type unit' w Hr Hpos w1 w2 w3.
  destruct (startSimulator_fresh rendered device sensor name type unit' w Hr)
    as (Hs1 & Hi1 & Hn1 & _).
  destruct (startSimulator_fresh rendered device sensor name type unit' w1 Hr)
    as (Hs2 & Hi2 & _).
  destruct (stopSimulator_fields (simulators w2) sensor w2) as (Hs3 & Hi3 & _).
  fold w1 in Hs1, Hi1, Hn1, Hs2, Hi2. fold w2 in Hs2, Hi2, Hs3, Hi3.
  fold w3 in Hs3, Hi3. rewrite Hn1 in Hs2, Hi2.
  assert (Hi2a : intervals w2 !! next_handle w = Some (sensor, type)).
  { rewrite Hi2, lookup_insert_ne by lia. rewrite Hi1. apply lookup_insert_eq. }
  split; [exact Hi2a|].
  split; [rewrite Hi2; apply lookup_insert_eq|].
  split; [rewrite Hs2, lookup_insert_eq; reflexivity|].
  split; [rewrite Hs3; apply lookup_delete_eq|].
  rewrite Hi3, Hs2, lookup_insert_eq. simpl.
  split; [apply lookup_delete_eq|].
  rewrite lookup_delete_ne by lia. exact Hi2a.
Qed.

Lemma second_start_through_same_closure_leaks_witness :
  let w := world (mount constant_half 0) in
  let w1 := snd (startSimulator ∅ "d1" "s1" "Humidity" "humidity" "%" w) in
  let w2 := snd (startSimulator ∅ "d1" "s1" "Humidity" "humidity" "%" w1) in
  let w3 := snd (stopSimulator (simulators w2) "s1" w2) in
  intervals w2 !! 1 = Some ("s1", "humidity") /\
  intervals w2 !! 2 = Some ("s1", "humidity") /\
  intervalId <$> simulators w2 !! "s1" = Some (Some 2) /\
  simulators w3 !! "s1" = None /\
  intervals w3 !! 2 = None /\
  intervals w3 !! 1 = Some ("s1", "humidity").
Proof.
  apply (second_start_through_same_closure_leaks ∅ "d1" "s1" "Humidity"
           "humidity" "%" (world (mount constant_half 0))).
  - reflexivity.
  - simpl. lia.
Defined.

(** *** What is shown is what was sent *)

Lemma values_for_snoc sensor out s v t :
  values_for sensor (out ++ [sent s t v]) =
  values_for sensor out ++ (if String.eqb s sensor then [v] else []).
Proof.
  unfold values_for. rewrite flat_map_app. simpl. rewrite app_nil_r. reflexivity.
Qed.

Lemma last_sent_step w a :
  (forall sensor sim, simulators w !! sensor = Some sim ->
     last (values_for sensor (outbox w)) = Some (currentValue sim)) ->
  forall sensor sim, simulators (step w a) !! sensor = Some sim ->
    last (values_for sensor (outbox (step w a))) = Some (currentValue sim).
Proof.
  intros Hinv.
  assert (Hsnoc : forall s sensor v t l sim,
            last (values_for sensor l) = Some (currentValue sim) -> s <> sensor ->
            last (values_for sensor (l ++ [sent s t v])) = Some (currentValue sim)).
  { intros s sensor v t l sim H Hne. rewrite values_for_snoc.
    apply String.eqb_neq in Hne. rewrite Hne, app_nil_r. exact H. }
  destruct a as [device s name type unit' | s | h | ms]; simpl.
  - destruct (ctx_isRunning (simulators w) s) eqn:Hr.
    { rewrite (startSimulator_running _ _ _ _ _ _ _ Hr). exact Hinv. }
    destruct (startSimulator_fresh (simulators w) device s name type unit' w Hr)
      as (Hs & _ & _ & Ho & _).
    intros sensor sim. rewrite Hs, Ho. intros H.
    apply lookup_insert_Some in H. destruct H as [[<- <-] | [Hne H]].
    + rewrite values_for_snoc, String.eqb_refl. simpl. apply last_snoc.
    + apply Hsnoc; [apply Hinv, H | exact Hne].
  - destruct (stopSimulator_fields (simulators w) s w) as (Hs & _ & _ & Ho & _).
    intros sensor sim. rewrite Hs, Ho. intros H.
    apply lookup_delete_Some in H. apply Hinv, H.
  - unfold fire. destruct (intervals w !! h) as [[s type]|]; [|exact Hinv].
    destruct (simulators w !! s) as [current|] eqn:Hcur.
    2:{ rewrite (on_interval_absent _ _ _ Hcur). exact Hinv. }
    destruct (on_interval_present s type current w Hcur) as (Hs & _ & _ & Ho & _).
    intros sensor sim. rewrite Hs, Ho. intros H.
    apply lookup_insert_Some in H. destruct H as [[<- <-] | [Hne H]].
    + rewrite values_for_snoc, String.eqb_refl. simpl. apply last_snoc.
    + apply Hsnoc; [apply Hinv, H | exact Hne].
  - exact Hinv.
Qed.

(** X19. In every session, the current value the provider holds for a sensor
    is the last value it sent for that sensor. *)
Theorem current_value_is_last_sent :
  forall rnd time acts sensor sim,
    let w := run acts (world (mount rnd time)) in
    simulators w !! sensor = Some sim ->
    last (values_for sensor (outbox w)) = Some (currentValue sim).
Proof.
  intros rnd time acts. unfold run.
  assert (H0 : forall sensor sim,
            simulators (world (mount rnd time)) !! sensor = Some sim ->
            last (values_for sensor (outbox (world (mount rnd time)))) =
              Some (currentValue sim)).
  { intros sensor sim H. simpl in H. rewrite lookup_empty in H. discriminate. }
  revert H0. generalize (world (mount rnd time)).
  induction acts as [|a acts IH]; intros w0 H0 sensor sim; simpl; [apply H0|].
  apply IH. apply last_sent_step, H0.
Qed.

Lemma current_value_is_last_sent_witness :
  exists sim,
    simulators (world humidity_session) !! "s1" = Some sim /\
    last (values_for "s1" (outbox (world humidity_session))) =
      Some (currentValue sim).
Proof.
  eexists. split; [reflexivity|].
  apply (current_value_is_last_sent constant_half 0
           [Start "d1" "s1" "Humidity" "humidity" "%"] "s1").
  reflexivity.
Defined.

(** *** Nothing is sent for a sensor that was not started *)

Lemma started_snoc acts a sensor : started acts sensor -> started (acts ++ [a]) sensor.
Proof.
  intros (d & n & t & u & H). exists d, n, t, u. apply in_or_app. left. exact H.
Qed.

Lemma only_started acts rnd time :
  let w := run acts (world (mount rnd time)) in
  (forall s sim, simulators w !! s = Some sim -> started acts s) /\
  (forall h s t, intervals w !! h = Some (s, t) -> started acts s) /\
  (forall o s, In o (outbox w) -> sensor_of o = Some s -> started acts s).
Proof.
  induction acts as [|a acts IH] using rev_ind.
  - simpl. split; [|split].
    + intros s sim H. rewrite lookup_empty in H. discriminate.
    + intros h s t H. rewrite lookup_empty in H. discriminate.
    + intros o s [].
  - rewrite run_snoc. cbv zeta in IH. set (w := run acts (world (mount rnd time))) in *.
    destruct IH as (Hsim & Hint & Hout).
    assert (Hsim' : forall s sim, simulators w !! s = Some sim -> started (acts ++ [a]) s)
      by (intros; eapply started_snoc, Hsim; eassumption).
    assert (Hint' : forall h s t, intervals w !! h = Some (s, t) -> started (acts ++ [a]) s)
      by (intros; eapply started_snoc, Hint; eassumption).
    assert (Hout' : forall o s, In o (outbox w) -> sensor_of o = Some s ->
                                started (acts ++ [a]) s)
      by (intros; eapply started_snoc, Hout; eassumption).
    destruct a as [device s0 name type unit' | s0 | h | ms]; cbn [step].
    + destruct (ctx_isRunning (simulators w) s0) eqn:Hr.
      { rewrite (startSimulator_running _ _ _ _ _ _ _ Hr). auto. }
      destruct (startSimulator_fresh (simulators w) device s0 name type unit' w Hr)
        as (Hs & Hi & _ & Ho & _).
      assert (Hnew : started (acts ++ [Start device s0 name type unit']) s0).
      { exists device, name, type, unit'. apply in_or_app. right. left. reflexivity. }
      rewrite Hs, Hi, Ho. split; [|split].
      * intros s sim H. apply lookup_insert_Some in H.
        destruct H as [[<- _] | [_ H]]; [exact Hnew | eapply Hsim'; eassumption].
      * intros h s t H. apply lookup_insert_Some in H.
        destruct H as [[_ [= <- _]] | [_ H]]; [exact Hnew | eapply Hint'; eassumption].
      * intros o s Hin Hs0. apply in_app_or in Hin.
        destruct Hin as [Hin | [<- | []]]; [eapply Hout'; eassumption|].
        simpl in Hs0. injection Hs0 as <-. exact Hnew.
    + destruct (stopSimulator_fields (simulators w) s0 w) as (Hs & Hi & _ & Ho & _).
      rewrite Hs, Hi, Ho. split; [|split; [|exact Hout']].
      * intros s sim H. apply lookup_delete_Some in H. destruct H as [_ H].
        eapply Hsim'; eassumption.
      * intros h s t H.
        destruct (simulators w !! s0 ≫= _) as [h0|];
          [apply lookup_delete_Some in H; destruct H as [_ H]|];
          eapply Hint'; eassumption.
    + unfold fire. destruct (intervals w !! h) as [[s0 type]|] eqn:Hh; [|auto].
      destruct (simulators w !! s0) as [current|] eqn:Hcur.
      2:{ rewrite (on_interval_absent _ _ _ Hcur). auto. }
      destruct (on_interval_present s0 type current w Hcur) as (Hs & Hi & _ & Ho & _).
      rewrite Hs, Hi, Ho. split; [|split; [exact Hint'|]].
      * intros s sim H. apply lookup_insert_Some in H.
        destruct H as [[<- _] | [_ H]]; eapply Hsim'; eassumption.
      * intros o s Hin Hs0. apply in_app_or in Hin.
        destruct Hin as [Hin | [<- | []]]; [eapply Hout'; eassumption|].
        simpl in Hs0. injection Hs0 as <-. eapply Hsim'; eassumption.
    + auto.
Qed.

(** X20. In every session, every reading sent is for a sensor that a start
    of the session named: the simulator sends nothing for a sensor that was
    never started. *)
Theorem nothing_sent_for_unstarted_sensor :
  forall rnd time acts table sensor v t,
    In (TableInsert table sensor v t) (outbox (run acts (world (mount rnd time)))) ->
    started acts sensor.
Proof.
  intros rnd time acts table sensor v t Hin.
  destruct (only_started acts rnd time) as (_ & _ & Hout).
  apply (Hout _ sensor Hin). reflexivity.
Qed.

Lemma nothing_sent_for_unstarted_sensor_witness :
  started [Start "d1" "s1" "Humidity" "humidity" "%"] "s1".
Proof.
  apply (nothing_sent_for_unstarted_sensor constant_half 0
           [Start "d1" "s1" "Humidity" "humidity" "%"] "readings" "s1" (480 # 8)%Q 0).
  left. reflexivity.
Defined.

End SimulatorSessions.

(** ** Properties of what the dashboard shows *)
Module DisplayFacts.

(** *** Statistics of the history modal *)







(** *** The age label of the device card *)

(** X18. The label of the device card brackets the age: with [s] the whole
    seconds between the two instants, the label's number times its unit is at
    most [s] and less than a unit below it; seconds are shown below 60,
    minutes from 1 to 59, hours from 1 to 23 and days from 1 on.  An instant
    in the future is shown as a negative number of seconds. *)
Theorem label_brackets_the_age :
  forall date now,
    let s := ((now - date) / 1000)%Z in
    let label := Display.formatTimestamp date now in
    (Display.seconds_of label <= s < Display.seconds_of label + Display.unit_of label)%Z /\
    match label with
    | Display.SecondsAgo n => (n = s /\ n < 60)%Z
    | Display.MinutesAgo n => (1 <= n < 60)%Z
    | Display.HoursAgo n => (1 <= n < 24)%Z
    | Display.DaysAgo n => (1 <= n)%Z
    end.
Proof.
  intros date now s label. subst label. unfold Display.formatTimestamp.
  fold s.
  destruct (Z.ltb_spec s 60); [simpl; lia|].
  destruct (Z.ltb_spec s 3600); [simpl; Z.div_mod_to_equations; lia|].
  destruct (Z.ltb_spec s 86400); simpl; Z.div_mod_to_equations; lia.
Qed.

End DisplayFacts.
